(** * Meshing workflow: geometry-to-configuration templating and pipeline control

    A shallow embedding of the Python scripts

      - [scripts/generate_blockMeshDict.py]  (bounds, domain box, numeric key rewrite)
      - [scripts/case_structure.py]          (case assembly, renaming, snappy injection)
      - [run.py]                             (stage sequencing)

    Conventions of the embedding.

      - Scalars are exact rationals ([Q]); the rounding of machine floats is
        outside the model, the decimal formatting [{v:.6f}] is inside it.
      - Texts are lists of ASCII characters; [\s], [\w] and [str.strip] use
        the ASCII part of Python's character classes.
      - A parsed surface file is the list of its facet vertices.
      - Exceptions are values of [exn]; a script is a function from its
        environment to an outcome. *)

From Stdlib Require Import Ascii String DecimalString DecimalN.
From stdpp Require Import gmap strings.
From Stdlib Require Import List Permutation ZArith QArith Qminmax Qround Qabs Lia Lqa.
Import ListNotations.

Close Scope Q_scope.

(** ** Texts *)

Abbreviation text := (list ascii).

Definition txt (s : string) : text := list_ascii_of_string s.
Arguments txt s%_string.

(** * Python strings *)

Module Str.

Definition code (c : ascii) : nat := nat_of_ascii c.

Definition in_range (lo hi : nat) (c : ascii) : bool :=
  (lo <=? code c)%nat && (code c <=? hi)%nat.

(** [str.isspace] on ASCII: TAB..CR, FS..US and the blank. *)
Definition is_space (c : ascii) : bool := in_range 9 13 c || in_range 28 32 c.

Definition is_digit (c : ascii) : bool := in_range 48 57 c.

(** The class [\w] on ASCII. *)
Definition is_word (c : ascii) : bool :=
  is_digit c || in_range 65 90 c || in_range 97 122 c || Ascii.eqb c "_".

(** The line boundaries of [str.splitlines] on ASCII:
    LF, VT, FF, CR, FS, GS, RS. *)
Definition is_linebreak (c : ascii) : bool := in_range 10 13 c || in_range 28 30 c.

Definition text_eqb (a b : text) : bool :=
  if list_eq_dec Ascii.ascii_dec a b then true else false.

Fixpoint startswith (s p : text) {struct p} : bool :=
  match p, s with
  | [], _ => true
  | c :: p', d :: s' => Ascii.eqb c d && startswith s' p'
  | _ :: _, [] => false
  end.

Fixpoint lstrip (s : text) : text :=
  match s with
  | c :: s' => if is_space c then lstrip s' else s
  | [] => []
  end.

Definition rstrip (s : text) : text := rev (lstrip (rev s)).

Definition strip (s : text) : text := rstrip (lstrip s).

Definition lower_char (c : ascii) : ascii :=
  if in_range 65 90 c then ascii_of_nat (code c + 32) else c.

Definition lower (s : text) : text := map lower_char s.

(** [s.splitlines()]; CR LF counts as one boundary. *)
Fixpoint splitlines (s : text) : list text :=
  match s with
  | [] => []
  | c :: s' =>
      if is_linebreak c then
        [] :: match s' with
              | d :: s'' =>
                  if Ascii.eqb c "013" && Ascii.eqb d "010"
                  then splitlines s'' else splitlines s'
              | [] => []
              end
      else
        match splitlines s' with
        | [] => [[c]]
        | l :: ls => (c :: l) :: ls
        end
  end.

(** [sep.join(ls)] *)
Fixpoint join (sep : text) (ls : list text) : text :=
  match ls with
  | [] => []
  | [l] => l
  | l :: ls' => l ++ sep ++ join sep ls'
  end.

Definition NL : text := ["010"%char].

(** [s] is empty or starts outside the class [p]. *)
Definition stops (p : ascii -> bool) (s : text) : Prop :=
  match s with c :: _ => p c = false | [] => True end.

(** [l] has no line boundary. *)
Definition no_break (l : text) : Prop :=
  forallb (fun c => negb (is_linebreak c)) l = true.

(** [str(n)] for an [int]. *)
Definition str_of_int (n : Z) : text := txt (NilZero.string_of_int (Z.to_int n)).

(** [s.replace(old, new)] for a non-empty [old]: leftmost occurrences,
    not overlapping. [skip] counts the characters of an occurrence still
    to be dropped. *)
Fixpoint replace_from (old new : text) (s : text) (skip : nat) : text :=
  match s with
  | [] => []
  | c :: s' =>
      match skip with
      | S n => replace_from old new s' n
      | O =>
          if startswith s old
          then new ++ replace_from old new s' (length old - 1)
          else c :: replace_from old new s' 0
      end
  end.

Definition replace (old new s : text) : text := replace_from old new s 0.

End Str.

(** * Number formatting and parsing *)

Module Format.
Import Str.

Local Open Scope Z_scope.

(** Rounding to the nearest integer, ties to even, as the correctly
    rounded [%f] conversion does. *)
Definition round_half_even (q : Q) : Z :=
  let f := Qfloor q in
  match Qcompare (q - inject_Z f) (1 # 2) with
  | Lt => f
  | Gt => f + 1
  | Eq => if Z.even f then f else f + 1
  end.

Definition digit (d : Z) : ascii := ascii_of_nat (48 + Z.to_nat d).

Definition decimal (n : Z) : text := txt (NilZero.string_of_uint (N.to_uint (Z.to_N n))).

(** The six digits of [n mod 10^6], most significant first. *)
Definition pad6 (n : Z) : text :=
  map (fun k => digit ((n / 10 ^ k) mod 10)) [5; 4; 3; 2; 1; 0].

(** [f"{q:.6f}"] *)
Definition fmt6 (q : Q) : text :=
  let m := round_half_even (Qabs q * 1000000) in
  (if Qle_bool 0 q then [] else ["-"%char])
    ++ decimal (m / 1000000) ++ "."%char :: pad6 (m mod 1000000).

(** The value of a string of decimal digits; [None] on another character. *)
Fixpoint digits_value (acc : Z) (s : text) : option Z :=
  match s with
  | [] => Some acc
  | c :: s' =>
      if is_digit c
      then digits_value (10 * acc + Z.of_nat (code c - 48)) s'
      else None
  end.

(** The digits of an [int] literal: single underscores may separate
    digits. [after_digit] tells that the character before was a digit. *)
Fixpoint int_digits (acc : Z) (after_digit : bool) (s : text) : option Z :=
  match s with
  | [] => if after_digit then Some acc else None
  | c :: s' =>
      if is_digit c then int_digits (10 * acc + Z.of_nat (code c - 48)) true s'
      else if Ascii.eqb c "_" && after_digit then
        match s' with
        | d :: _ => if is_digit d then int_digits acc false s' else None
        | [] => None
        end
      else None
  end.

(** [int(s)] on a stripped string: an optional sign and decimal digits
    ([None] is [ValueError]). *)
Definition parse_int (s : text) : option Z :=
  match s with
  | [] => None
  | c :: s' =>
      if Ascii.eqb c "-" then option_map Z.opp (int_digits 0 false s')
      else if Ascii.eqb c "+" then int_digits 0 false s'
      else int_digits 0 false s
  end.

(** The part of [s] before the first [.] and the part after it. *)
Fixpoint split_dot (s : text) : text * option text :=
  match s with
  | [] => ([], None)
  | c :: s' =>
      if Ascii.eqb c "." then ([], Some s')
      else let '(a, b) := split_dot s' in (c :: a, b)
  end.

(** [float(s)] on a string over the characters [-], [.] and the digits,
    which is all [read_block_bounds] lets through ([None] is [ValueError]). *)
Definition parse_float (s : text) : option Q :=
  let '(neg, body) :=
    match s with
    | c :: s' => if Ascii.eqb c "-" then (true, s') else (false, s)
    | [] => (false, s)
    end in
  let '(ip, fp) := split_dot body in
  let fp := match fp with Some f => f | None => [] end in
  match ip, fp with
  | [], [] => None
  | _, _ =>
      match digits_value 0 ip, digits_value 0 fp with
      | Some i, Some f =>
          let v := (inject_Z i + inject_Z f / inject_Z (10 ^ Z.of_nat (length fp)))%Q in
          Some (if neg then Qopp v else v)
      | _, _ => None
      end
  end.

End Format.

(** * Domain geometry ([generate_blockMeshDict.py], [case_structure.py]) *)

Module Geometry.

Local Open Scope Q_scope.

(** [(xmin, xmax, ymin, ymax, zmin, zmax)] as returned by [compute_bounds]. *)
Record bounds : Type := mkBounds {
  xmin : Q; xmax : Q;
  ymin : Q; ymax : Q;
  zmin : Q; zmax : Q
}.

Definition point : Type := (Q * Q * Q)%type.

(** Python's [min] and [max] keep the first extremal element; so do
    [Qmin] and [Qmax]. *)
Definition py_min (xs : list Q) : option Q :=
  match xs with
  | [] => None
  | x :: xs' => Some (fold_left Qmin xs' x)
  end.

Definition py_max (xs : list Q) : option Q :=
  match xs with
  | [] => None
  | x :: xs' => Some (fold_left Qmax xs' x)
  end.

(** [compute_bounds]: [pts] is [list(m.v0) + list(m.v1) + list(m.v2)];
    [None] stands for the [ValueError] of [min] on an empty sequence. *)
Definition compute_bounds (pts : list point) : option bounds :=
  let xs := map (fun p => fst (fst p)) pts in
  let ys := map (fun p => snd (fst p)) pts in
  let zs := map (fun p => snd p) pts in
  match py_min xs, py_max xs, py_min ys, py_max ys, py_min zs, py_max zs with
  | Some x0, Some x1, Some y0, Some y1, Some z0, Some z1 =>
      Some (mkBounds x0 x1 y0 y1 z0 z1)
  | _, _, _, _, _, _ => None
  end.

Definition x_extent (b : bounds) : Q := xmax b - xmin b.
Definition y_extent (b : bounds) : Q := ymax b - ymin b.
Definition z_extent (b : bounds) : Q := zmax b - zmin b.

(** [D = max(xmax - xmin, ymax - ymin, zmax - zmin)] *)
Definition D (b : bounds) : Q :=
  Qmax (Qmax (x_extent b) (y_extent b)) (z_extent b).

(** The domain box of [main]: upstream [3 D], downstream [15 D],
    [3 D] on both sides in y and z. *)
Definition domain_box (b : bounds) : bounds :=
  {| xmin := xmin b - 3 * D b;
     xmax := xmax b + 15 * D b;
     ymin := ymin b - 3 * D b;
     ymax := ymax b + 3 * D b;
     zmin := zmin b - 3 * D b;
     zmax := zmax b + 3 * D b |}.

(** [M2 = 2] in [case_structure.py]. *)
Definition M2 : Q := 2.

(** The numbers printed into [ref_min] and [ref_max]: [stl] is the
    result of [compute_bounds], [blk] the bounds read back from the
    generated blockMeshDict. *)
Definition ref_min_corner (stl : bounds) : point :=
  (xmin stl - M2, ymin stl - M2, zmin stl - M2).

Definition ref_max_corner (stl blk : bounds) : point :=
  (xmax blk, ymax stl + M2, zmax stl + M2).


(** The numbers printed into [loc_str]. *)
Definition location_in_mesh (stl blk : bounds) : point :=
  (xmax stl + (xmax blk - xmax stl) / 2,
   ymax stl + (ymax blk - ymax stl) / 2,
   zmax stl + (zmax blk - zmax stl) / 2).


(** [inner] lies within [outer] on every axis. *)
Definition within (inner outer : bounds) : Prop :=
  xmin outer <= xmin inner /\ xmax inner <= xmax outer /\
  ymin outer <= ymin inner /\ ymax inner <= ymax outer /\
  zmin outer <= zmin inner /\ zmax inner <= zmax outer.

(** The data-model invariant of a bounding box. *)
Definition well_formed (b : bounds) : Prop :=
  xmin b <= xmax b /\ ymin b <= ymax b /\ zmin b <= zmax b.

Definition unit_cube : bounds := mkBounds 0 1 0 1 0 1.
Definition single_point : bounds := mkBounds 0 0 0 0 0 0.

End Geometry.

(** * Regular expressions

    The fragment of Python's [re] that the scripts use: character
    classes, greedy and lazy repetition of a class, [^], [\b] and
    groups. Matching is Python's: a backtracking search that takes the
    first success, greedy repetitions trying the longest run first and
    lazy ones the shortest. *)

Module Regex.
Import Str.

Inductive atom : Type :=
| Chr (p : ascii -> bool)       (* one character of the class *)
| Star (p : ascii -> bool)      (* [p*] *)
| Plus (p : ascii -> bool)      (* [p+] *)
| PlusLazy (p : ascii -> bool)  (* [p+?] *)
| Bol                           (* [^] without MULTILINE *)
| WordBoundary                  (* [\b] *)
| Mark.                         (* an opening or closing parenthesis *)

Definition regex : Type := list atom.

(** What a match leaves: the text after it and the texts that remained
    at each [Mark], last first. *)
Definition result : Type := (text * list text)%type.

(** A continuation gets the character just consumed (if any), the
    remaining text and the marks so far. *)
Definition cont : Type := option ascii -> text -> list text -> option result.

Definition word_at (c : option ascii) : bool :=
  match c with Some c => is_word c | None => false end.

Fixpoint greedy (p : ascii -> bool) (k : cont)
    (prev : option ascii) (s : text) (mk : list text) {struct s} : option result :=
  match s with
  | c :: s' =>
      if p c then
        match greedy p k (Some c) s' mk with
        | Some r => Some r
        | None => k prev s mk
        end
      else k prev s mk
  | [] => k prev s mk
  end.

Fixpoint lazy (p : ascii -> bool) (k : cont)
    (prev : option ascii) (s : text) (mk : list text) {struct s} : option result :=
  match k prev s mk with
  | Some r => Some r
  | None =>
      match s with
      | c :: s' => if p c then lazy p k (Some c) s' mk else None
      | [] => None
      end
  end.

Definition one (p : ascii -> bool) (k : cont) : cont :=
  fun _ s mk =>
    match s with
    | c :: s' => if p c then k (Some c) s' mk else None
    | [] => None
    end.

Fixpoint run (r : regex) : cont :=
  match r with
  | [] => fun _ s mk => Some (s, mk)
  | a :: r' =>
      match a with
      | Chr p => one p (run r')
      | Star p => greedy p (run r')
      | Plus p => one p (greedy p (run r'))
      | PlusLazy p => one p (lazy p (run r'))
      | Bol => fun prev s mk =>
          match prev with None => run r' prev s mk | Some _ => None end
      | WordBoundary => fun prev s mk =>
          if xorb (word_at prev) (word_at (head s)) then run r' prev s mk else None
      | Mark => fun prev s mk => run r' prev s (s :: mk)
      end
  end.

(** [pat.match(s)] *)
Definition rmatch (r : regex) (s : text) : option result := run r None s [].

(** [pat.search(s)]: the first position with a match. *)
Fixpoint search_from (r : regex) (prev : option ascii) (s : text) : option result :=
  match run r prev s [] with
  | Some res => Some res
  | None =>
      match s with
      | c :: s' => search_from r (Some c) s'
      | [] => None
      end
  end.

Definition search (r : regex) (s : text) : option result := search_from r None s.

(** The text between two marks. *)
Definition between (s_open s_close : text) : text :=
  firstn (length s_open - length s_close) s_open.

(** [group(1)] of a match with one group, [group(1)] and [group(2)] of a
    match with two. *)
Definition group1 (mk : list text) : text :=
  match rev mk with
  | a :: b :: _ => between a b
  | _ => []
  end.

Definition group2 (mk : list text) : text :=
  match rev mk with
  | _ :: _ :: a :: b :: _ => between a b
  | _ => []
  end.

(** [pat.sub(repl, s)]: matches are sought from left to right, each
    after the end of the one before; [repl] gets the marks of the match.
    [skip] counts the characters of the current match still to be
    dropped. (After an empty match the next character is copied; the
    patterns of the scripts never match the empty text.) *)
Fixpoint sub_from (r : regex) (repl : list text -> text)
    (prev : option ascii) (s : text) (skip : nat) {struct s} : text :=
  match skip, s with
  | S n, c :: s' => sub_from r repl (Some c) s' n
  | S _, [] => []
  | O, _ =>
      match run r prev s [] with
      | Some (rest, mk) =>
          repl mk ++
          match s with
          | [] => []
          | c :: s' =>
              match length s - length rest with
              | O => c :: sub_from r repl (Some c) s' 0
              | S n => sub_from r repl (Some c) s' n
              end
          end
      | None =>
          match s with
          | [] => []
          | c :: s' => c :: sub_from r repl (Some c) s' 0
          end
      end
  end.

Definition sub (r : regex) (repl : list text -> text) (s : text) : text :=
  sub_from r repl None s 0.

(** Literal text in a pattern. *)
Definition lit (w : text) : regex := map (fun c => Chr (Ascii.eqb c)) w.

(** [.] without DOTALL, [.] with DOTALL, [\S] and [[\-\d\.]]. *)
Definition dot (c : ascii) : bool := negb (Ascii.eqb c "010").
Definition any (c : ascii) : bool := true.
Definition non_space (c : ascii) : bool := negb (is_space c).
Definition num_char (c : ascii) : bool :=
  Ascii.eqb c "-" || is_digit c || Ascii.eqb c ".".

Definition not_semi (c : ascii) : bool := negb (Ascii.eqb ";" c).

(** The character before the position reached after reading [w]. *)
Definition last_of (prev : option ascii) (w : text) : option ascii :=
  fold_left (fun _ c => Some c) w prev.

(** The continuation at the end of a pattern. *)
Definition accept : cont := fun _ s mk => Some (s, mk).

End Regex.

(** * Scripts: exceptions, outcomes and state *)

Module Script.

Inductive exn : Type :=
| FileNotFoundError
| ValueError
| AttributeError
| UnicodeDecodeError
| EOFError
| CalledProcessError (cmd : text) (code : Z)
| TemplateFormatError.   (* named by the design notes; no script raises it *)

Inductive outcome (A : Type) : Type :=
| Return (a : A)
| Raise (e : exn).
Arguments Return {A} a.
Arguments Raise {A} e.

(** A statement over a state [S]: the state survives an exception. *)
Definition M (S A : Type) : Type := S -> outcome A * S.

Definition ret {S A : Type} (a : A) : M S A := fun s => (Return a, s).

Definition raise {S A : Type} (e : exn) : M S A := fun s => (Raise e, s).

Definition bind {S A B : Type} (m : M S A) (f : A -> M S B) : M S B :=
  fun s =>
    match m s with
    | (Return a, s') => f a s'
    | (Raise e, s') => (Raise e, s')
    end.

Definition get {S : Type} : M S S := fun s => (Return s, s).

Definition modify {S : Type} (f : S -> S) : M S unit := fun s => (Return tt, f s).

Definition lift {S A : Type} (o : outcome A) : M S A := fun s => (o, s).

Definition when {S : Type} (b : bool) (m : M S unit) : M S unit :=
  if b then m else ret tt.

Fixpoint for_each {S A : Type} (xs : list A) (body : A -> M S unit) : M S unit :=
  match xs with
  | [] => ret tt
  | x :: xs' => bind (body x) (fun _ => for_each xs' body)
  end.

Definition of_option {A : Type} (e : exn) (o : option A) : outcome A :=
  match o with Some a => Return a | None => Raise e end.

Declare Scope script_scope.
Delimit Scope script_scope with script.
Notation "x <- m ;; k" := (bind m (fun x => k))
  (at level 20, m at level 99, k at level 200, only parsing) : script_scope.
Notation "m ;; k" := (bind m (fun _ => k))
  (at level 100, k at level 200, only parsing, right associativity) : script_scope.

End Script.

(** * [scripts/generate_blockMeshDict.py] *)

Module BlockMeshDict.
Import Str Format Regex Geometry Script.

(** [re.compile(r"^(\s*KEY\s+).+?;")] *)
Definition key_pattern (key : text) : regex :=
  [Bol; Mark; Star is_space] ++ lit key
    ++ [Plus is_space; Mark; PlusLazy dot; Chr (Ascii.eqb ";")].

(** The keys of [patterns], in insertion order. *)
Definition keys : list text :=
  [txt "xmin"; txt "xmax"; txt "ymin"; txt "ymax"; txt "zmin"; txt "zmax";
   txt "dx"; txt "dy"; txt "dz"].

(** [values], listed in the order of [patterns]. *)
Definition values (dom : bounds) (dx dy dz : Q) : list (text * Q) :=
  [(txt "xmin", xmin dom); (txt "xmax", xmax dom);
   (txt "ymin", ymin dom); (txt "ymax", ymax dom);
   (txt "zmin", zmin dom); (txt "zmax", zmax dom);
   (txt "dx", dx); (txt "dy", dy); (txt "dz", dz)].

(** [lambda m: m.group(1) + f"{values[key]:.6f};"] *)
Definition replacement (v : Q) (mk : list text) : text :=
  group1 mk ++ fmt6 v ++ [";"%char].

(** The body of [for line in lines]: the first pattern that matches
    rewrites the line. *)
Fixpoint rewrite_line (kvs : list (text * Q)) (line : text) : text :=
  match kvs with
  | [] => line
  | (key, v) :: kvs' =>
      match rmatch (key_pattern key) line with
      | Some _ => sub (key_pattern key) (replacement v) line
      | None => rewrite_line kvs' line
      end
  end.

(** The entry of [values] that [rewrite_line] applies to [line], if any. *)
Fixpoint matching_key (kvs : list (text * Q)) (line : text) : option (text * Q) :=
  match kvs with
  | [] => None
  | (key, v) :: kvs' =>
      match rmatch (key_pattern key) line with
      | Some _ => Some (key, v)
      | None => matching_key kvs' line
      end
  end.

(** A key is a non-empty run of characters other than white space. *)
Definition key_ok (key : text) : bool :=
  match key with [] => false | _ => forallb non_space key end.

(** From the template's text to the text written to [args.output]. *)
Definition rewrite_text (kvs : list (text * Q)) (template : text) : text :=
  join NL (map (rewrite_line kvs) (splitlines template)) ++ NL.

(** [main]: [pts] are the vertices of [args.stl], [cells] the numbers of
    [args.cells.split()]. *)
Definition main (template : text) (pts : list point) (cells : list Q) : outcome text :=
  match compute_bounds pts with
  | None => Raise ValueError
  | Some b =>
      match cells with
      | [dx; dy; dz] =>
          Return (rewrite_text (values (domain_box b) dx dy dz) template)
      | _ => Raise ValueError
      end
  end.

End BlockMeshDict.

(** * [scripts/case_structure.py]: the text transformations *)

Module CaseText.
Import Str Format Regex Geometry Script.

(** [re.sub(r"\bWORD\b", ...)] *)
Definition word_pattern (w : text) : regex :=
  [WordBoundary] ++ lit w ++ [WordBoundary].

(** The three substitutions applied to a field file. A target name is
    used as replacement text as it stands (a name with a backslash, which
    [re.sub] would expand, is outside the model). *)
Definition rename_patches (stl_name : text) (t : text) : text :=
  let t := sub (word_pattern (txt "placeholder")) (fun _ => stl_name) t in
  let t := sub (word_pattern (txt "cylinderGroup")) (fun _ => stl_name ++ txt "Group") t in
  sub (word_pattern (txt "cylinder")) (fun _ => stl_name) t.














(** The decomposeParDict loop. *)
Definition subdomains_key : text := txt "numberOfSubdomains".

Definition is_subdomains_line (L : text) : bool :=
  startswith (strip L) subdomains_key.

Definition subdomains_line (nSub : Z) : text :=
  txt "numberOfSubdomains " ++ str_of_int nSub ++ txt ";".

Definition patch_line (nSub : Z) (L : text) : text :=
  if is_subdomains_line L then subdomains_line nSub else L.

Definition patch_decompose (nSub : Z) (content : text) : text :=
  concat (map (fun L => patch_line nSub L ++ NL) (splitlines content)).

(** The lines of a file that match the subdomain-count key. *)
Definition key_lines (content : text) : list text :=
  filter is_subdomains_line (splitlines content).

(** [read_block_bounds]: [re.search(r"xmin\s+([\-\d\.]+);.*xmax\s+([\-\d\.]+);", data, re.S)] *)
Definition bound_pattern (lo hi : text) : regex :=
  lit lo ++ [Plus is_space; Mark; Plus num_char; Mark; Chr (Ascii.eqb ";"); Star any]
    ++ lit hi ++ [Plus is_space; Mark; Plus num_char; Mark; Chr (Ascii.eqb ";")].

(** [float(m.group(1)), float(m.group(2))] for [m] a search result. *)
Definition two_floats (m : option result) : outcome (Q * Q) :=
  match m with
  | None => Raise AttributeError
  | Some (_, mk) =>
      match parse_float (group1 mk) with
      | None => Raise ValueError
      | Some a =>
          match parse_float (group2 mk) with
          | None => Raise ValueError
          | Some b => Return (a, b)
          end
      end
  end.

Definition read_block_bounds (data : text) : outcome bounds :=
  let xs := search (bound_pattern (txt "xmin") (txt "xmax")) data in
  let ys := search (bound_pattern (txt "ymin") (txt "ymax")) data in
  let zs := search (bound_pattern (txt "zmin") (txt "zmax")) data in
  match two_floats xs with
  | Raise e => Raise e
  | Return (x0, x1) =>
      match two_floats ys with
      | Raise e => Raise e
      | Return (y0, y1) =>
          match two_floats zs with
          | Raise e => Raise e
          | Return (z0, z1) => Return (mkBounds x0 x1 y0 y1 z0 z1)
          end
      end
  end.

(** The generated lines. *)
Definition triple (p : point) : text :=
  let '(x, y, z) := p in
  fmt6 x ++ txt " " ++ fmt6 y ++ txt " " ++ fmt6 z.

Definition loc_str (stl blk : bounds) : text :=
  txt "    locationInMesh (" ++ triple (location_in_mesh stl blk) ++ txt ");".

Definition ref_min (stl : bounds) : text :=
  txt "        min (" ++ triple (ref_min_corner stl) ++ txt ");".

Definition ref_max (stl blk : bounds) : text :=
  txt "        max (" ++ triple (ref_max_corner stl blk) ++ txt ");".

(** The injection loop over [sdict.splitlines()]: the flags [inject]
    and [in_ref], and what one line appends to [out]. *)
Record flags : Type := mkFlags { inject : bool; in_ref : bool }.

Definition inject_step (loc rmin rmax : text) (f : flags) (L : text)
  : flags * list text :=
  let s := strip L in
  if text_eqb s (txt "castellatedMeshControls") then
    (mkFlags true (in_ref f), [L])
  else if inject f && text_eqb s (txt "{") then
    (mkFlags false (in_ref f), [L; loc])
  else if startswith s (txt "refinementBox") then
    (mkFlags (inject f) true, [L])
  else if in_ref f && startswith s (txt "min (") then
    (f, [rmin])
  else if in_ref f && startswith s (txt "max (") then
    (mkFlags (inject f) false, [rmax])
  else (f, [L]).

Fixpoint inject_lines (loc rmin rmax : text) (f : flags) (lines : list text)
  : list text :=
  match lines with
  | [] => []
  | L :: rest =>
      let '(f', o) := inject_step loc rmin rmax f L in
      o ++ inject_lines loc rmin rmax f' rest
  end.

(** An output line is the line read or one of the two overwriting lines. *)
Definition kept_or_overwritten (rmin rmax L O : text) : Prop :=
  O = L \/ O = rmin \/ O = rmax.

(** What a template may lack. *)
Definition is_header (L : text) : bool :=
  text_eqb (strip L) (txt "castellatedMeshControls").

Definition is_brace (L : text) : bool := text_eqb (strip L) (txt "{").

Definition is_ref_box (L : text) : bool := startswith (strip L) (txt "refinementBox").

Definition is_min_max (L : text) : bool :=
  startswith (strip L) (txt "min (") || startswith (strip L) (txt "max (").

(** Step 5 of the script, from the template to the text written to
    [snappy_path]. *)
Definition snappy_dict (snappy_template stl_name fname : text) (stl blk : bounds) : text :=
  let sdict := replace (txt "placeholder") stl_name snappy_template in
  let sdict := replace (txt "cylinder.stl") fname sdict in
  let sdict := replace (txt "cylinder.eMesh")
                 (replace (txt ".stl") (txt ".eMesh") fname) sdict in
  join NL (inject_lines (loc_str stl blk) (ref_min stl) (ref_max stl blk)
             (mkFlags false false) (splitlines sdict)) ++ NL.

(** Step 6. *)
Definition surface_dict (surface_template fname : text) : text :=
  replace (txt "cylinder.stl") fname surface_template.

(** [os.path.splitext(fname)[0]] for a name without directory part: the
    name up to its last dot, unless only dots come before it. *)
Fixpoint after_last_dot_rev (r : text) : option text :=
  match r with
  | [] => None
  | c :: r' => if Ascii.eqb c "." then Some r' else after_last_dot_rev r'
  end.

Definition splitext_root (fname : text) : text :=
  match after_last_dot_rev (rev fname) with
  | Some root_rev =>
      if forallb (Ascii.eqb ".") root_rev then fname else rev root_rev
  | None => fname
  end.

(** [f.lower().endswith('.stl')] *)
Definition is_stl_name (fname : text) : bool :=
  startswith (rev (lower fname)) (rev (txt ".stl")).

End CaseText.

(** * [scripts/case_structure.py]: the script *)

Module CaseStructure.
Import Str Format Regex Geometry Script CaseText.
Local Open Scope script_scope.

(** A file is a text or a surface, given by its facet vertices. *)
Inductive content : Type :=
| Text (t : text)
| Surface (pts : list point).

(** A directory tree: the files by their path below the directory. *)
Abbreviation tree := (gmap string content).

(** What the script finds around it and does not change:
    [templateCase], the two templates under [mesh] and the listing of
    [inputSTL] in the order of [os.listdir]; [None] is a missing file or
    directory. *)
Record env : Type := mkEnv {
  template_case : option (gmap string text);
  snappy_tmpl : option text;
  surface_tmpl : option text;
  stl_folder : option (list (text * list point))
}.

(** What the script changes: the case directory ([None] when there is
    none) and the subprocesses started so far. *)
Record state : Type := mkState {
  case_dir : option tree;
  procs : list text
}.

Definition path_of (t : text) : string := string_of_list_ascii t.

(** [open(path).read()] inside the case directory. *)
Definition read_case (path : string) : M state text :=
  fun st =>
    match case_dir st with
    | Some c =>
        match c !! path with
        | Some (Text t) => (Return t, st)
        | Some (Surface _) => (Raise UnicodeDecodeError, st)
        | None => (Raise FileNotFoundError, st)
        end
    | None => (Raise FileNotFoundError, st)
    end.

(** [open(path, "w").write(...)] and [shutil.copy] into the case directory. *)
Definition write_case (path : string) (c : content) : M state unit :=
  fun st =>
    match case_dir st with
    | Some t => (Return tt, mkState (Some (<[path := c]> t)) (procs st))
    | None => (Raise FileNotFoundError, st)
    end.

(** [os.path.isfile(path)] inside the case directory. *)
Definition isfile_case (path : string) : M state bool :=
  fun st =>
    match case_dir st with
    | Some t => (Return (bool_decide (is_Some (t !! path))), st)
    | None => (Return false, st)
    end.

(** [if os.path.isdir(case_dir): shutil.rmtree(case_dir)] followed by
    [shutil.copytree(template_case, case_dir)]. *)
Definition recreate_case (w : env) : M state unit :=
  modify (fun st => mkState None (procs st));;
  tc <- lift (of_option FileNotFoundError (template_case w));;
  modify (fun st => mkState (Some (Text <$> tc)) (procs st)).

(** [stl_files = [f for f in os.listdir(stl_folder) if f.lower().endswith('.stl')]] *)
Definition stl_files (folder : list (text * list point)) : list (text * list point) :=
  filter (fun f => is_stl_name (fst f)) folder.

(** 1.5) Rename patch names in the field files that exist. *)
Definition rename_fields (stl_name : text) : M state unit :=
  for_each ["0/U"; "0/p"; "0/nuTilda"; "0/nut"]%string (fun f0 =>
    present <- isfile_case f0;;
    if present then
      t <- read_case f0;;
      write_case f0 (Text (rename_patches stl_name t))
    else ret tt).

(** 2) Patch decomposeParDict. *)
Definition patch_decompose_file (nSub : Z) : M state unit :=
  t <- read_case "system/decomposeParDict";;
  write_case "system/decomposeParDict" (Text (patch_decompose nSub t)).

(** 3) Copy STL. *)
Definition stl_dst (fname : text) : string :=
  ("constant/triSurface/" ++ path_of fname)%string.

Definition copy_stl (fname : text) (pts : list point) : M state unit :=
  write_case (stl_dst fname) (Surface pts).

(** 4) Generate blockMeshDict: the script of [BlockMeshDict] runs as a
    subprocess on the template's blockMeshDict with [--cells "0.35 0.35 1"];
    an exception in it is a non-zero exit status, which [check=True]
    turns into [CalledProcessError]. *)
Definition block_cmd : text := txt "python3 generate_blockMeshDict.py".

Definition generate_block_mesh (w : env) (pts : list point) : M state unit :=
  modify (fun st => mkState (case_dir st) (procs st ++ [block_cmd]));;
  match template_case w with
  | Some tc =>
      match tc !! "system/blockMeshDict"%string with
      | Some template =>
          match BlockMeshDict.main template pts [0.35; 0.35; 1]%Q with
          | Return out => write_case "system/blockMeshDict" (Text out)
          | Raise _ => raise (CalledProcessError block_cmd 1)
          end
      | None => raise (CalledProcessError block_cmd 1)
      end
  | None => raise (CalledProcessError block_cmd 1)
  end.

(** 5) Prepare snappyHexMeshDict. *)
Definition prepare_snappy (snappy_template stl_name fname : text)
    (pts : list point) : M state unit :=
  data <- read_case "system/blockMeshDict";;
  blk <- lift (read_block_bounds data);;
  stl <- lift (of_option ValueError (compute_bounds pts));;
  write_case "system/snappyHexMeshDict"
    (Text (snappy_dict snappy_template stl_name fname stl blk)).

(** 6) surfaceFeatureExtractDict *)
Definition prepare_surface (surface_template fname : text) : M state unit :=
  write_case "system/surfaceFeatureExtractDict"
    (Text (surface_dict surface_template fname)).

(** The script, with [nSub = args.subdomains]. *)
Definition case_structure (w : env) (nSub : Z) : M state unit :=
  recreate_case w;;
  snappy_template <- lift (of_option FileNotFoundError (snappy_tmpl w));;
  surface_template <- lift (of_option FileNotFoundError (surface_tmpl w));;
  folder <- lift (of_option FileNotFoundError (stl_folder w));;
  match stl_files folder with
  | [] => raise FileNotFoundError
  | (fname, pts) :: _ =>
      let stl_name := splitext_root fname in
      rename_fields stl_name;;
      patch_decompose_file nSub;;
      copy_stl fname pts;;
      generate_block_mesh w pts;;
      prepare_snappy snappy_template stl_name fname pts;;
      prepare_surface surface_template fname
  end.

(** Examples: a template tree, a case left by an earlier run, a folder
    without surface and one with a surface without facets. *)
Definition small_template : gmap string text :=
  <["system/decomposeParDict"%string := txt "numberOfSubdomains 2;"]>
    (<["0/U"%string := txt "cylinder { type noSlip; }"]>
       (<["system/blockMeshDict"%string := txt "xmin 0;"]> ∅)).

Definition old_case : tree :=
  <["log_solver.txt"%string := Text (txt "End")]> (Text <$> small_template).

Definition no_surface : env :=
  mkEnv (Some small_template) (Some (txt "geometry")) (Some (txt "cylinder.stl"))
    (Some [(txt "notes.txt", [])]).

Definition empty_surface : env :=
  mkEnv (Some small_template) (Some (txt "geometry")) (Some (txt "cylinder.stl"))
    (Some [(txt "wing.stl", [])]).

End CaseStructure.

(** * [run.py]: the pipeline controller *)

Module Run.
Import Str Format Regex Script.
Local Open Scope script_scope.

(** What the controller does to the world, in order: a finished
    subprocess with its command line, log file and exit status, and the
    changes to the file tree. *)
Inductive event : Type :=
| Exec (cmd : text) (log_file : option text) (code : Z)
| Rmtree (path : text)
| Mkdir (path : text)
| Touch (path : text).

(** What the controller finds in the world. The exit status of a
    command may depend on everything that happened before it. *)
Record env : Type := mkEnv {
  stl_files : list text;               (* [INPUT_DIR.glob('*.stl')], names *)
  case_exists : bool;                  (* [CASE.exists()] *)
  foam_exists : bool;                  (* [foamfile.exists()] *)
  processor_dirs : list text;          (* [CASE.glob('processor*')] *)
  controlDict : option text;           (* the template controlDict, if a file *)
  exit_status : list event -> text -> Z
}.

(** The lines still to be read from standard input and the events so far. *)
Record state : Type := mkState {
  stdin : list text;
  log : list event
}.

Definition emit (e : event) : M state unit :=
  modify (fun st => mkState (stdin st) (log st ++ [e])).

(** [input(prompt)] *)
Definition input : M state text :=
  fun st =>
    match stdin st with
    | [] => (Raise EOFError, st)
    | l :: rest => (Return l, mkState rest (log st))
    end.

(** A subprocess that is waited for and whose status is checked. *)
Definition checked (w : env) (cmd : text) (log_file : option text) : M state unit :=
  st <- get;;
  let code := exit_status w (log st) cmd in
  emit (Exec cmd log_file code);;
  if (code =? 0)%Z then ret tt else raise (CalledProcessError cmd code).

(** [run_and_log(cmd, CASE, log_file)] *)
Definition run_and_log (w : env) (cmd : text) (log_file : text) : M state unit :=
  checked w cmd (Some log_file).

Definition CASE : text := txt "case".

(** [input(...).strip().lower() == 'y'] *)
Definition is_yes (answer : text) : bool := text_eqb (lower (strip answer)) (txt "y").

(** [s.rstrip(';')] *)
Fixpoint lstrip_semi (s : text) : text :=
  match s with
  | c :: s' => if Ascii.eqb c ";" then lstrip_semi s' else s
  | [] => []
  end.

Definition rstrip_semi (s : text) : text := rev (lstrip_semi (rev s)).

(** [re.match(r'^\s*application\s+(\S+)', line)] *)
Definition application_pattern : regex :=
  [Bol; Star is_space] ++ lit (txt "application")
    ++ [Plus is_space; Mark; Plus non_space; Mark].

Fixpoint application_of (lines : list text) : option text :=
  match lines with
  | [] => None
  | line :: rest =>
      match rmatch application_pattern line with
      | Some (_, mk) => Some (rstrip_semi (group1 mk))
      | None => application_of rest
      end
  end.

Definition select_solver (ctrl : option text) : text :=
  match ctrl with
  | Some t =>
      match application_of (splitlines t) with
      | Some s => s
      | None => txt "simpleFoam"
      end
  | None => txt "simpleFoam"
  end.

(** The command lines. *)
Definition case_script_cmd : text := txt "python3 scripts/case_structure.py".

Definition snappy_parallel_cmd (nproc : Z) : text :=
  txt "mpirun -np " ++ str_of_int nproc
    ++ txt " snappyHexMesh -dict system/snappyHexMeshDict -parallel -overwrite".

Definition snappy_serial_cmd : text :=
  txt "snappyHexMesh -dict system/snappyHexMeshDict -overwrite".

Definition solver_parallel_cmd (nproc : Z) (solver : text) : text :=
  txt "mpirun -np " ++ str_of_int nproc ++ txt " " ++ solver ++ txt " -parallel".

(** Before stage 1: the case directory is emptied. *)
Definition ensure_case (w : env) : M state unit :=
  when (case_exists w) (emit (Rmtree CASE));;
  emit (Mkdir CASE).

(** 1) Prepare case structure: [subprocess.run([...], check=True)] *)
Definition stage1 (w : env) : M state unit :=
  checked w case_script_cmd None.

(** 2) blockMesh & surfaceFeatureExtract *)
Definition stage2 (w : env) : M state unit :=
  run_and_log w (txt "blockMesh") (txt "log_blockMesh.txt");;
  run_and_log w (txt "surfaceFeatureExtract") (txt "log_surfaceFeatureExtract.txt").

(** [int(input(...).strip() or 4)] *)
Definition read_count : M state Z :=
  a <- input;;
  match strip a with
  | [] => ret 4%Z
  | s => lift (of_option ValueError (parse_int s))
  end.

(** The number that [read_count] makes of a line. *)
Definition count_of (line : text) : option Z :=
  match strip line with
  | [] => Some 4%Z
  | s => parse_int s
  end.

(** 3) snappyHexMesh; the stage leaves [nproc] behind. *)
Definition stage3 (w : env) : M state Z :=
  a <- input;;
  let runParallel := is_yes a in
  nproc <- (if runParallel then read_count else ret 1%Z);;
  (if runParallel then
     run_and_log w (txt "decomposePar") (txt "log_decomposePar.txt");;
     run_and_log w (snappy_parallel_cmd nproc) (txt "log_snappyHexMesh.txt");;
     run_and_log w (txt "reconstructParMesh -constant") (txt "log_reconstructParMesh.txt");;
     for_each (processor_dirs w) (fun procdir => emit (Rmtree procdir))
   else
     run_and_log w snappy_serial_cmd (txt "log_snappyHexMesh.txt"));;
  ret nproc.

(** 4) Finalize mesh & create .foam file *)
Definition stage4 (w : env) : M state unit :=
  when (negb (foam_exists w)) (emit (Touch (txt "case/case.foam"))).

(** 5) Run CFD solver, with the [nproc] of stage 3. *)
Definition stage5 (w : env) (nproc : Z) : M state unit :=
  let solver := select_solver (controlDict w) in
  a <- input;;
  let runSol := is_yes a in
  if runSol then
    run_and_log w (txt "decomposePar") (txt "log_decomposePar_sim.txt");;
    run_and_log w (solver_parallel_cmd nproc solver) (txt "log_solver.txt");;
    run_and_log w (txt "reconstructPar") (txt "log_reconstructSim.txt")
  else
    run_and_log w solver (txt "log_solver.txt").

Definition main (w : env) : M state unit :=
  match stl_files w with
  | [] => ret tt
  | _ :: _ =>
      ensure_case w;;
      stage1 w;;
      stage2 w;;
      nproc <- stage3 w;;
      stage4 w;;
      stage5 w nproc
  end.

(** An event that does not stop the run. *)
Definition event_ok (e : event) : Prop :=
  match e with Exec _ _ code => code = 0%Z | _ => True end.

(** What a statement may add to the log: events that do not stop the
    run, unless it ends with the exception of a process that failed, the
    last event. *)
Definition orderly {A : Type} (suffix : list event) (o : outcome A) : Prop :=
  match o with
  | Return _ => Forall event_ok suffix
  | Raise e =>
      (Forall event_ok suffix /\
       forall cmd code, e <> CalledProcessError cmd code) \/
      (exists pre cmd lf code,
          suffix = pre ++ [Exec cmd lf code] /\ Forall event_ok pre /\
          code <> 0%Z /\ e = CalledProcessError cmd code)
  end.

Definition sequenced {A : Type} (m : M state A) : Prop :=
  forall st, exists suffix,
    log (snd (m st)) = log st ++ suffix /\ orderly suffix (fst (m st)).

(** A world in which every process succeeds, and runs for the examples. *)
Definition calm (w : env) : Prop := forall h cmd, exit_status w h cmd = 0%Z.

Definition calm_env : env :=
  mkEnv [txt "wing.stl"] false false [] None (fun _ _ => 0%Z).

(** The feature extraction fails, everything else succeeds. *)
Definition broken_env : env :=
  mkEnv [txt "wing.stl"] true false [] None
    (fun _ cmd => if text_eqb cmd (txt "surfaceFeatureExtract") then 1%Z else 0%Z).

Definition start (lines : list text) : state := mkState lines [].

(** The command line that wrote a log file, if any did. *)
Fixpoint command_of (log_file : text) (l : list event) : option text :=
  match l with
  | [] => None
  | Exec cmd (Some lf) _ :: rest =>
      if text_eqb lf log_file then Some cmd else command_of log_file rest
  | _ :: rest => command_of log_file rest
  end.

(** The refinement and solve commands of a run in which nothing fails. *)
Definition refine_events (parallel : bool) (nproc : Z) (procdirs : list text) : list event :=
  if parallel then
    [Exec (txt "decomposePar") (Some (txt "log_decomposePar.txt")) 0;
     Exec (snappy_parallel_cmd nproc) (Some (txt "log_snappyHexMesh.txt")) 0;
     Exec (txt "reconstructParMesh -constant") (Some (txt "log_reconstructParMesh.txt")) 0]
    ++ map Rmtree procdirs
  else [Exec snappy_serial_cmd (Some (txt "log_snappyHexMesh.txt")) 0].

(** The events up to the end of stage 2 and those of stage 4. *)
Definition opening_events (w : env) : list event :=
  (if case_exists w then [Rmtree CASE] else [])
  ++ [Mkdir CASE;
      Exec case_script_cmd None 0;
      Exec (txt "blockMesh") (Some (txt "log_blockMesh.txt")) 0;
      Exec (txt "surfaceFeatureExtract") (Some (txt "log_surfaceFeatureExtract.txt")) 0].

Definition finalize_events (w : env) : list event :=
  if foam_exists w then [] else [Touch (txt "case/case.foam")].

Definition solve_events (parallel : bool) (nproc : Z) (solver : text) : list event :=
  if parallel then
    [Exec (txt "decomposePar") (Some (txt "log_decomposePar_sim.txt")) 0;
     Exec (solver_parallel_cmd nproc solver) (Some (txt "log_solver.txt")) 0;
     Exec (txt "reconstructPar") (Some (txt "log_reconstructSim.txt")) 0]
  else [Exec solver (Some (txt "log_solver.txt")) 0].

End Run.

(** * Further notions used in the statements about the scripts *)

Module Inside.
Import Geometry.
Local Open Scope Q_scope.

(** A vertex within a box, and strictly within it. *)
Definition in_box (b : bounds) (p : point) : Prop :=
  let '(x, y, z) := p in
  xmin b <= x /\ x <= xmax b /\
  ymin b <= y /\ y <= ymax b /\
  zmin b <= z /\ z <= zmax b.



Definition px (p : point) : Q := fst (fst p).
Definition py (p : point) : Q := snd (fst p).
Definition pz (p : point) : Q := snd p.

Definition tetra : list point :=
  [(0, 0, 0); (1, 0, 0); (0, 2, 0); (0, 0, 3)].

End Inside.

Module Shapes.
Import Str Regex CaseText.

(** How the injection loop may change a list of lines: a line is kept,
    kept and followed by the location line when it is a brace, or
    overwritten when it starts with [min (] or [max (]. *)
Inductive rewritten (loc rmin rmax : text) : list text -> list text -> Prop :=
| rw_nil : rewritten loc rmin rmax [] []
| rw_keep (L : text) (ls os : list text) :
    rewritten loc rmin rmax ls os ->
    rewritten loc rmin rmax (L :: ls) (L :: os)
| rw_insert (L : text) (ls os : list text) :
    is_brace L = true ->
    rewritten loc rmin rmax ls os ->
    rewritten loc rmin rmax (L :: ls) (L :: loc :: os)
| rw_min (L : text) (ls os : list text) :
    startswith (strip L) (txt "min (") = true ->
    rewritten loc rmin rmax ls os ->
    rewritten loc rmin rmax (L :: ls) (rmin :: os)
| rw_max (L : text) (ls os : list text) :
    startswith (strip L) (txt "max (") = true ->
    rewritten loc rmin rmax ls os ->
    rewritten loc rmin rmax (L :: ls) (rmax :: os).

(** A line that is neither the header nor the start of a refinement box. *)
Definition plain (L : text) : Prop := is_header L = false /\ is_ref_box L = false.

(** A line of the inside of a refinement box that is not an entry to
    overwrite. *)
Definition inner (L : text) : Prop := plain L /\ is_min_max L = false.

(** The longest run of characters other than white space at the start
    of a text, and what follows it. *)
Fixpoint take_word (s : text) : text :=
  match s with
  | c :: s' => if non_space c then c :: take_word s' else []
  | [] => []
  end.

Fixpoint drop_word (s : text) : text :=
  match s with
  | c :: s' => if non_space c then drop_word s' else s
  | [] => []
  end.

(** A line of the form [application <name>], with what follows the
    white space after the key word. *)
Definition application_line (line value : text) : Prop :=
  exists lead sp,
    line = lead ++ txt "application" ++ sp ++ value /\
    forallb is_space lead = true /\
    forallb is_space sp = true /\ sp <> [] /\
    match value with c :: _ => non_space c = true | [] => False end.

End Shapes.

Module Stages.
Import Str Script Run.

(** The processes of stage 3, by their log file. *)
Definition refine_log (lf : text) : bool :=
  text_eqb lf (txt "log_decomposePar.txt")
  || text_eqb lf (txt "log_snappyHexMesh.txt")
  || text_eqb lf (txt "log_reconstructParMesh.txt").

Definition refine_exec (e : event) : bool :=
  match e with
  | Exec _ (Some lf) _ => refine_log lf
  | _ => false
  end.

(** The processes of stage 5, by their log file. *)
Definition solve_log (lf : text) : bool :=
  text_eqb lf (txt "log_decomposePar_sim.txt")
  || text_eqb lf (txt "log_solver.txt")
  || text_eqb lf (txt "log_reconstructSim.txt").

Definition solve_exec (e : event) : bool :=
  match e with
  | Exec _ (Some lf) _ => solve_log lf
  | _ => false
  end.

(** Events among which there is no process of stage 5. *)
Definition quiet (suf : list event) : Prop :=
  forallb (fun e => negb (solve_exec e)) suf = true.

(** A world in which the reconstruction of the mesh fails. *)
Definition no_reconstruct : env :=
  mkEnv [txt "wing.stl"] false false [txt "processor0"; txt "processor1"] None
    (fun _ cmd =>
       if text_eqb cmd (txt "reconstructParMesh -constant") then 2%Z else 0%Z).

End Stages.

(** * What the case script changes *)

Module Changes.
Import Str Script CaseStructure Inside.

(** The files the case script writes: the four field files, the
    dictionaries it patches or generates and the copy of a surface. *)
Definition generated (p : string) : Prop :=
  In p ["0/U"; "0/p"; "0/nuTilda"; "0/nut"; "system/decomposeParDict";
        "system/blockMeshDict"; "system/snappyHexMeshDict";
        "system/surfaceFeatureExtractDict"]%string \/
  exists fname, p = stl_dst fname.

(** A statement that leaves a case directory in place and changes in it
    files of [P] only. *)
Definition keeps {A : Type} (P : string -> Prop) (m : M state A) : Prop :=
  forall c ps, exists c',
    case_dir (snd (m (mkState (Some c) ps))) = Some c' /\
    forall p, ~ P p -> c' !! p = c !! p.

(** A template and an input folder with which the case script returns. *)
Definition full_template : gmap string text :=
  <["system/decomposeParDict"%string := txt "numberOfSubdomains 2;"]>
    (<["0/U"%string := txt "cylinder { type noSlip; }"]>
       (<["system/controlDict"%string := txt "application simpleFoam;"]>
          (<["system/blockMeshDict"%string :=
               txt "xmin 0;" ++ NL ++ txt "xmax 1;" ++ NL ++
               txt "ymin 0;" ++ NL ++ txt "ymax 1;" ++ NL ++
               txt "zmin 0;" ++ NL ++ txt "zmax 1;" ++ NL]> ∅))).

Definition full_env : env :=
  mkEnv (Some full_template)
    (Some (txt "castellatedMeshControls" ++ NL ++ txt "{" ++ NL ++ txt "}" ++ NL))
    (Some (txt "cylinder.stl"))
    (Some [(txt "notes.txt", []); (txt "wing.STL", tetra); (txt "body.stl", [])]).

End Changes.

(** * What the reader of the bounds finds *)

Module Reading.
Import Str.

(** The text [data] holds the key [lo] followed by white space, the
    text [n1] and a semicolon, and behind them the key [hi] followed by
    white space, the text [n2] and a semicolon. *)
Definition stands_in (data lo hi n1 n2 : text) : Prop :=
  exists pre ws1 mid ws2 post,
    data = pre ++ lo ++ ws1 ++ n1 ++ ";"%char :: mid ++ hi ++ ws2 ++ n2 ++ ";"%char :: post /\
    ws1 <> [] /\ forallb is_space ws1 = true /\
    ws2 <> [] /\ forallb is_space ws2 = true.

End Reading.

(** * Occurrences of a text in a text *)

Module Occurrences.
Import Str.

(** [old] occurs in [s], for a non-empty [old]. *)
Fixpoint occurs (old s : text) : bool :=
  startswith s old ||
  match s with
  | [] => false
  | _ :: s' => occurs old s'
  end.

(** No occurrence of [old] in [a ++ rest] starts inside [a]. *)
Fixpoint leftmost (old a rest : text) : bool :=
  match a with
  | [] => true
  | _ :: a' => negb (startswith (a ++ rest) old) && leftmost old a' rest
  end.

End Occurrences.

(** * Proofs *)

Arguments Ascii.eqb : simpl never.

(** ** The model on small inputs *)

Module Examples.
Import Str Format Regex Geometry Script BlockMeshDict CaseText.
Local Open Scope Q_scope.

Example splitlines_mixed :
  splitlines (txt "a" ++ ["013"; "010"]%char ++ txt "b" ++ NL ++ NL ++ txt "c" ++ NL)
  = [txt "a"; txt "b"; []; txt "c"].
Proof. reflexivity. Qed.

Example strip_blanks : strip (txt "  a b  ") = txt "a b".
Proof. reflexivity. Qed.

Example replace_leftmost : replace (txt "ab") (txt "X") (txt "abaabab") = txt "XaXX".
Proof. reflexivity. Qed.

Example fmt6_negative : fmt6 (-3) = txt "-3.000000".
Proof. vm_compute. reflexivity. Qed.

Example fmt6_rounds : fmt6 0.12345678 = txt "0.123457".
Proof. vm_compute. reflexivity. Qed.

Example fmt6_small_negative : fmt6 (-0.0000001) = txt "-0.000000".
Proof. vm_compute. reflexivity. Qed.

Example parse_float_point : parse_float (txt ".") = None.
Proof. reflexivity. Qed.

Example parse_int_underscore : parse_int (txt "1_000") = Some 1000%Z.
Proof. reflexivity. Qed.

Example key_pattern_indented :
  rewrite_line (values (domain_box unit_cube) 0.35 0.35 1)
    (txt "    xmin  -1;  // upstream;")
  = txt "    xmin  -3.000000;  // upstream;".
Proof. vm_compute. reflexivity. Qed.

(** Backtracking: the last blank before the semicolon is the value. *)
Example key_pattern_blank_value :
  rewrite_line (values (domain_box unit_cube) 0.35 0.35 1) (txt "xmax  ;")
  = txt "xmax 16.000000;".
Proof. vm_compute. reflexivity. Qed.

Example key_pattern_longer_key :
  rewrite_line (values (domain_box unit_cube) 0.35 0.35 1) (txt "dzz 1;")
  = txt "dzz 1;".
Proof. vm_compute. reflexivity. Qed.

Example rename_wing :
  rename_patches (txt "wing")
    (txt "cylinder cylinderGroup mycylinder cylinder.stl placeholder_x placeholder")
  = txt "wing wingGroup mycylinder wing.stl placeholder_x wing".
Proof. vm_compute. reflexivity. Qed.

Example splitext_roots :
  splitext_root (txt "a.b.stl") = txt "a.b" /\ splitext_root (txt ".stl") = txt ".stl".
Proof. split; reflexivity. Qed.

Example read_back_bounds :
  read_block_bounds
    (rewrite_text (values (domain_box unit_cube) 0.35 0.35 1)
       (txt "xmin 0; xmax 0;" ++ NL ++ txt "ymin 0;" ++ NL ++ txt "ymax 0;" ++ NL
          ++ txt "zmin 0;" ++ NL ++ txt "zmax 0;" ++ NL ++ txt "xmax 0;"))
  = Return (mkBounds (-3.000000) 16.000000 (-3.000000) 4.000000 (-3.000000) 4.000000).
Proof. vm_compute. reflexivity. Qed.

Example snappy_unit_cube :
  snappy_dict
    (txt "castellatedMeshControls" ++ NL ++ txt "{" ++ NL
       ++ txt "  refinementBox" ++ NL ++ txt "     min (0 0 0);" ++ NL
       ++ txt "     max (1 1 1);" ++ NL ++ txt "  file placeholder cylinder.stl;")
    (txt "wing") (txt "wing.stl") unit_cube (domain_box unit_cube)
  = txt "castellatedMeshControls" ++ NL ++ txt "{" ++ NL
      ++ txt "    locationInMesh (8.500000 2.500000 2.500000);" ++ NL
      ++ txt "  refinementBox" ++ NL
      ++ txt "        min (-2.000000 -2.000000 -2.000000);" ++ NL
      ++ txt "        max (16.000000 3.000000 3.000000);" ++ NL
      ++ txt "  file wing wing.stl;" ++ NL.
Proof. vm_compute. reflexivity. Qed.

End Examples.

(** ** Domain geometry *)

Module GeometryFacts.
Import Geometry.
Local Open Scope Q_scope.

Lemma D_upper_bound (b : bounds) :
  x_extent b <= D b /\ y_extent b <= D b /\ z_extent b <= D b.
Proof.
  unfold D. repeat split.
  - eapply Qle_trans; [apply Q.le_max_l | apply Q.le_max_l].
  - eapply Qle_trans; [apply Q.le_max_r | apply Q.le_max_l].
  - apply Q.le_max_r.
Qed.

Lemma D_attained (b : bounds) :
  D b == x_extent b \/ D b == y_extent b \/ D b == z_extent b.
Proof.
  unfold D.
  destruct (Q.max_dec (Qmax (x_extent b) (y_extent b)) (z_extent b)) as [H | H].
  - destruct (Q.max_dec (x_extent b) (y_extent b)) as [H' | H'].
    + left. rewrite H. exact H'.
    + right; left. rewrite H. exact H'.
  - right; right. exact H.
Qed.

Lemma D_nonneg (b : bounds) : well_formed b -> 0 <= D b.
Proof.
  intros (Hx & _ & _). destruct (D_upper_bound b) as (H & _ & _).
  unfold x_extent in H. lra.
Qed.





End GeometryFacts.

(** ** Lists of characters *)

Module StrFacts.
Import Str.

Lemma eqb_refl_true (c : ascii) : Ascii.eqb c c = true.
Proof. apply Ascii.eqb_refl. Qed.

Lemma startswith_app (p s : text) : startswith (p ++ s) p = true.
Proof. induction p as [| c p IH]; simpl; [reflexivity |]. now rewrite eqb_refl_true. Qed.

Lemma startswith_inv (p s : text) :
  startswith s p = true -> exists s', s = p ++ s'.
Proof.
  revert s. induction p as [| c p IH]; intros s H; simpl in H.
  - now exists s.
  - destruct s as [| d s]; [discriminate |].
    apply andb_prop in H as [Hc Hs]. apply Ascii.eqb_eq in Hc. subst d.
    destruct (IH _ Hs) as [s' ->]. now exists s'.
Qed.

Lemma text_eqb_eq (a b : text) : text_eqb a b = true <-> a = b.
Proof. unfold text_eqb. destruct (list_eq_dec _ a b); split; congruence. Qed.

(** Two splittings of one text into a run of a class and a rest that
    does not start in the class coincide. *)
Lemma run_unique (p : ascii -> bool) (l1 l2 a b : text) :
  forallb p l1 = true -> forallb p l2 = true -> stops p a -> stops p b ->
  l1 ++ a = l2 ++ b -> l1 = l2 /\ a = b.
Proof.
  revert l2. induction l1 as [| c l1 IH]; intros l2 H1 H2 Ha Hb E.
  - destruct l2 as [| d l2]; [now split |].
    simpl in *. subst a. simpl in Ha. apply andb_prop in H2 as [H2 _]. congruence.
  - destruct l2 as [| d l2].
    + simpl in *. subst b. simpl in Hb. apply andb_prop in H1 as [H1 _]. congruence.
    + simpl in *. injection E as -> E.
      apply andb_prop in H1 as [_ H1]. apply andb_prop in H2 as [_ H2].
      destruct (IH l2 H1 H2 Ha Hb E) as [-> ->]. now split.
Qed.

(** *** [splitlines] and [join] *)

Lemma splitlines_no_break (s : text) : Forall no_break (splitlines s).
Proof.
  assert (H : forall n (s : text), (length s <= n)%nat -> Forall no_break (splitlines s)).
  { clear s. induction n as [| n IH]; intros s Hn.
    - destruct s; [constructor | simpl in Hn; lia].
    - destruct s as [| c s]; simpl; [constructor |]. simpl in Hn.
      destruct (is_linebreak c) eqn:Hc.
      + constructor; [reflexivity |].
        destruct s as [| d s']; [constructor |]. simpl in Hn.
        destruct (Ascii.eqb c "013" && Ascii.eqb d "010"); apply IH; simpl; lia.
      + assert (H := IH s ltac:(lia)).
        destruct (splitlines s) as [| l ls].
        * constructor; [| constructor]. unfold no_break. simpl. now rewrite Hc.
        * inversion H; subst. constructor; [| assumption].
          unfold no_break in *. simpl. now rewrite Hc. }
  apply (H (length s)). lia.
Qed.

Lemma splitlines_line (l s : text) :
  no_break l -> splitlines (l ++ NL ++ s) = l :: splitlines s.
Proof.
  unfold no_break. induction l as [| c l IH]; intros H; simpl.
  - destruct s; reflexivity.
  - simpl in H. apply andb_prop in H as [Hc Hl].
    destruct (is_linebreak c); [discriminate |].
    simpl in IH. now rewrite (IH Hl).
Qed.

Lemma splitlines_concat (ls : list text) :
  Forall no_break ls ->
  splitlines (concat (map (fun l => l ++ NL) ls)) = ls.
Proof.
  induction 1 as [| l ls Hl _ IH]; simpl; [reflexivity |].
  rewrite <- app_assoc. rewrite splitlines_line by assumption. now rewrite IH.
Qed.

Lemma join_NL (ls : list text) :
  ls <> [] -> join NL ls ++ NL = concat (map (fun l => l ++ NL) ls).
Proof.
  induction ls as [| l ls IH]; intros H; [congruence |].
  destruct ls as [| l' ls].
  - simpl. now rewrite app_nil_r.
  - change (join NL (l :: l' :: ls)) with (l ++ NL ++ join NL (l' :: ls)).
    rewrite <- !app_assoc. rewrite IH by congruence. simpl.
    now rewrite <- !app_assoc.
Qed.

Lemma splitlines_join (ls : list text) :
  ls <> [] -> Forall no_break ls -> splitlines (join NL ls ++ NL) = ls.
Proof.
  intros Hne H. rewrite join_NL by assumption. now apply splitlines_concat.
Qed.

Lemma space_of_break (c : ascii) : is_linebreak c = true -> is_space c = true.
Proof.
  unfold is_linebreak, is_space, in_range. intros H.
  apply orb_prop in H as [H | H]; apply andb_prop in H as [H1 H2];
    apply Nat.leb_le in H1, H2; apply orb_true_iff; [left | right];
    apply andb_true_iff; split; apply Nat.leb_le; lia.
Qed.

End StrFacts.

(** ** The matcher *)

Module RegexFacts.
Import Str Regex StrFacts.

Lemma last_of_app (prev : option ascii) (u w : text) :
  last_of prev (u ++ w) = last_of (last_of prev u) w.
Proof. unfold last_of. apply fold_left_app. Qed.

Lemma last_of_some (c : ascii) (w : text) : exists d, last_of (Some c) w = Some d.
Proof. revert c. induction w as [| x w IH]; intros c; simpl; eauto. Qed.

Lemma last_of_cons_some (prev : option ascii) (c : ascii) (w : text) :
  exists d, last_of prev (c :: w) = Some d.
Proof. simpl. apply last_of_some. Qed.

(** *** Literals *)

Lemma run_lit (w : text) (r : regex) prev s mk :
  run (lit w ++ r) prev (w ++ s) mk = run r (last_of prev w) s mk.
Proof.
  revert prev. induction w as [| c w IH]; intros prev; simpl; [reflexivity |].
  unfold one. rewrite eqb_refl_true. apply IH.
Qed.

Lemma run_lit_inv (w : text) (r : regex) prev s mk res :
  run (lit w ++ r) prev s mk = Some res ->
  exists s2, s = w ++ s2 /\ run r (last_of prev w) s2 mk = Some res.
Proof.
  revert prev s. induction w as [| c w IH]; intros prev s H; simpl in *.
  - now exists s.
  - unfold one in H. destruct s as [| d s]; [discriminate |].
    destruct (Ascii.eqb c d) eqn:E; [| discriminate].
    apply Ascii.eqb_eq in E. subst d.
    destruct (IH _ _ H) as (s2 & -> & H2). now exists s2.
Qed.

Lemma one_inv p (k : cont) prev s mk res :
  one p k prev s mk = Some res ->
  exists c s', s = c :: s' /\ p c = true /\ k (Some c) s' mk = Some res.
Proof.
  unfold one. destruct s as [| c s']; [discriminate |].
  destruct (p c) eqn:Hc; [| discriminate]. intros H. now exists c, s'.
Qed.

(** *** Repetitions: what a success tells *)

Lemma greedy_inv p (k : cont) prev s mk res :
  greedy p k prev s mk = Some res ->
  exists w s2, s = w ++ s2 /\ forallb p w = true /\
               k (last_of prev w) s2 mk = Some res.
Proof.
  revert prev. induction s as [| c s IH]; intros prev H; simpl in H.
  - now exists [], [].
  - destruct (p c) eqn:Hc.
    + destruct (greedy p k (Some c) s mk) eqn:G.
      * injection H as <-. destruct (IH _ G) as (w & s2 & -> & Hw & Hk).
        exists (c :: w), s2. simpl. now rewrite Hc.
      * now exists [], (c :: s).
    + now exists [], (c :: s).
Qed.

(** A lazy repetition stops at the first position where the rest of the
    pattern succeeds. *)
Lemma lazy_inv p (k : cont) prev s mk res :
  lazy p k prev s mk = Some res ->
  exists w s2, s = w ++ s2 /\ forallb p w = true /\
               k (last_of prev w) s2 mk = Some res /\
               (forall u v, w = u ++ v -> v <> [] ->
                            k (last_of prev u) (v ++ s2) mk = None).
Proof.
  revert prev. induction s as [| c s IH]; intros prev H; simpl in H.
  - destruct (k prev [] mk) eqn:K; [| discriminate]. injection H as <-.
    exists [], []. repeat split; try assumption.
    intros u v E Hv. destruct u, v; simpl in E; congruence.
  - destruct (k prev (c :: s) mk) eqn:K.
    + injection H as <-. exists [], (c :: s). repeat split; try assumption.
      intros u v E Hv. destruct u, v; simpl in E; congruence.
    + destruct (p c) eqn:Hc; [| discriminate].
      destruct (IH _ H) as (w & s2 & -> & Hw & Hk & Hmin).
      exists (c :: w), s2. simpl. rewrite Hc. repeat split; try assumption.
      intros u v E Hv. destruct u as [| d u]; simpl in E.
      * subst v. simpl. exact K.
      * injection E as -> E. simpl. now apply Hmin.
Qed.

(** *** Repetitions: how a success is found *)

Lemma greedy_all p (k : cont) prev w s2 mk res :
  forallb p w = true -> stops p s2 ->
  k (last_of prev w) s2 mk = Some res ->
  greedy p k prev (w ++ s2) mk = Some res.
Proof.
  revert prev. induction w as [| c w IH]; intros prev Hw Hs Hk; simpl in *.
  - destruct s2 as [| d s2]; simpl; [assumption |]. simpl in Hs. now rewrite Hs.
  - apply andb_prop in Hw as [Hc Hw]. rewrite Hc. now rewrite (IH _ Hw Hs Hk).
Qed.


(** *** Substitution *)

Lemma sub_from_skip r repl prev (w s : text) :
  w <> [] ->
  sub_from r repl prev (w ++ s) (length w) = sub_from r repl (last_of prev w) s 0.
Proof.
  revert prev. induction w as [| c w IH]; intros prev H; [congruence |].
  simpl. destruct w as [| d w]; [reflexivity |].
  apply IH. discriminate.
Qed.

(** A match of the non-empty text [m] is replaced, and the search goes
    on behind it. *)
Lemma sub_match r repl prev (m rest : text) mk :
  m <> [] ->
  run r prev (m ++ rest) [] = Some (rest, mk) ->
  sub_from r repl prev (m ++ rest) 0
  = repl mk ++ sub_from r repl (last_of prev m) rest 0.
Proof.
  intros Hm H. destruct m as [| c m]; [congruence |].
  change ((c :: m) ++ rest) with (c :: (m ++ rest)) in *.
  cbn [sub_from]. rewrite H.
  replace (length (c :: m ++ rest) - length rest)%nat with (S (length m))
    by (simpl; rewrite length_app; lia).
  f_equal. destruct m as [| d m]; [reflexivity |].
  now rewrite sub_from_skip by discriminate.
Qed.


(** A pattern anchored by [^] finds nothing after the first character. *)
Lemma sub_from_bol r repl c (s : text) :
  sub_from (Bol :: r) repl (Some c) s 0 = s.
Proof.
  revert c. induction s as [| d s IH]; intros c; simpl; [reflexivity |].
  now rewrite IH.
Qed.

Lemma between_app (a b : text) : between (a ++ b) b = a.
Proof.
  unfold between. rewrite length_app.
  replace (length a + length b - length b)%nat with (length a) by lia.
  rewrite firstn_app. rewrite Nat.sub_diag. simpl.
  rewrite firstn_all. apply app_nil_r.
Qed.

(** The outcome of [sub] when the pattern, anchored by [^], matches a
    non-empty prefix [m] of the text. *)
Lemma sub_bol_match r repl (m rest : text) mk :
  m <> [] ->
  run (Bol :: r) None (m ++ rest) [] = Some (rest, mk) ->
  sub (Bol :: r) repl (m ++ rest) = repl mk ++ rest.
Proof.
  intros Hm H. unfold sub. rewrite (sub_match _ _ _ _ _ _ Hm H).
  f_equal. destruct m as [| c m]; [congruence |].
  destruct (last_of_cons_some None c m) as [e ->]. apply sub_from_bol.
Qed.

End RegexFacts.

(** ** Formatting *)

Module FormatFacts.
Import Str Format Regex.

Lemma digit_is_digit (d : Z) : (0 <= d < 10)%Z -> is_digit (digit d) = true.
Proof.
  intros H.
  assert (E : (d = 0 \/ d = 1 \/ d = 2 \/ d = 3 \/ d = 4 \/ d = 5 \/ d = 6
               \/ d = 7 \/ d = 8 \/ d = 9)%Z) by lia.
  repeat (destruct E as [-> | E]; [reflexivity |]). now subst.
Qed.

Lemma pad6_digits (n : Z) : forallb is_digit (pad6 n) = true.
Proof.
  unfold pad6. cbn [map forallb].
  rewrite !digit_is_digit by (apply Z.mod_pos_bound; lia). reflexivity.
Qed.

Lemma pad6_length (n : Z) : length (pad6 n) = 6%nat.
Proof. reflexivity. Qed.

Lemma uint_digits (u : Decimal.uint) :
  forallb is_digit (txt (NilEmpty.string_of_uint u)) = true.
Proof. induction u; simpl; try assumption; reflexivity. Qed.

Lemma decimal_digits (n : Z) : forallb is_digit (decimal n) = true.
Proof.
  unfold decimal, NilZero.string_of_uint.
  destruct (N.to_uint (Z.to_N n)) eqn:E; try reflexivity;
    rewrite <- E; apply uint_digits.
Qed.

Lemma decimal_nonempty (n : Z) : decimal n <> [].
Proof.
  unfold decimal, NilZero.string_of_uint.
  destruct (N.to_uint (Z.to_N n)); discriminate.
Qed.

(** What a character of a formatted number is not. *)
Lemma num_char_plain (c : ascii) :
  num_char c = true ->
  is_space c = false /\ is_linebreak c = false /\
  dot c = true /\ Ascii.eqb ";" c = false.
Proof.
  destruct c as [[] [] [] [] [] [] [] []]; vm_compute; intros H;
    first [discriminate H | repeat split].
Qed.

Lemma digit_num_char (c : ascii) : is_digit c = true -> num_char c = true.
Proof. unfold num_char. intros ->. now rewrite orb_true_r. Qed.

Lemma digits_num_chars (s : text) :
  forallb is_digit s = true -> forallb num_char s = true.
Proof.
  induction s as [| c s IH]; simpl; [reflexivity |].
  intros H. apply andb_prop in H as [Hc Hs].
  now rewrite (digit_num_char _ Hc), IH.
Qed.

(** The shape of [f"{q:.6f}"]: an optional sign, the digits of the
    integral part, a point and exactly six digits. *)
Lemma fmt6_shape (q : Q) :
  exists sign ip fp,
    fmt6 q = sign ++ ip ++ "."%char :: fp /\
    (sign = [] \/ sign = ["-"%char]) /\
    ip <> [] /\ forallb is_digit ip = true /\
    length fp = 6%nat /\ forallb is_digit fp = true.
Proof.
  unfold fmt6. eexists _, _, _. split; [reflexivity |].
  split; [destruct (Qle_bool 0 q); auto |].
  split; [apply decimal_nonempty |].
  split; [apply decimal_digits |].
  split; [apply pad6_length | apply pad6_digits].
Qed.

Lemma fmt6_num_chars (q : Q) : forallb num_char (fmt6 q) = true.
Proof.
  destruct (fmt6_shape q) as (sign & ip & fp & -> & Hs & _ & Hip & _ & Hfp).
  rewrite !forallb_app. cbn [forallb].
  rewrite (digits_num_chars _ Hip), (digits_num_chars _ Hfp).
  destruct Hs as [-> | ->]; reflexivity.
Qed.

Lemma fmt6_nonempty (q : Q) : fmt6 q <> [].
Proof.
  destruct (fmt6_shape q) as (sign & ip & fp & -> & _).
  destruct sign, ip; discriminate.
Qed.

End FormatFacts.

(** ** The numeric key rewrite of [generate_blockMeshDict.py] *)

Module BlockMeshDictFacts.
Import Str Format Regex Geometry BlockMeshDict StrFacts RegexFacts FormatFacts.

Lemma no_semi_of_min (prev : option ascii) (w s2 : text) (mk : list text) :
  (forall u v, w = u ++ v -> v <> [] ->
     one (Ascii.eqb ";") accept (last_of prev u) (v ++ s2) mk = None) ->
  forallb not_semi w = true.
Proof.
  revert prev. induction w as [| c w IH]; intros prev Hmin; [reflexivity |].
  simpl. apply andb_true_iff. split.
  - assert (K := Hmin [] (c :: w) eq_refl ltac:(discriminate)).
    unfold one in K. simpl in K. unfold not_semi.
    destruct (Ascii.eqb ";" c); [discriminate K | reflexivity].
  - apply (IH (Some c)). intros u v E Hv.
    apply (Hmin (c :: u) v); [now subst | assumption].
Qed.


(** What a match of [^(\s*KEY\s+).+?;] says about the line. *)
Lemma key_match_inv (key line rest : text) mk :
  rmatch (key_pattern key) line = Some (rest, mk) ->
  exists lead sp body,
    line = lead ++ key ++ sp ++ body ++ ";"%char :: rest /\
    forallb is_space lead = true /\
    forallb is_space sp = true /\ sp <> [] /\
    body <> [] /\ forallb dot body = true /\
    forallb not_semi (tl body) = true /\
    mk = [body ++ ";"%char :: rest; line].
Proof.
  unfold rmatch, key_pattern. intros H. cbn [app run] in H.
  apply greedy_inv in H as (lead & s1 & -> & Hlead & H).
  apply run_lit_inv in H as (s2 & -> & H).
  cbn [run] in H.
  apply one_inv in H as (c & s3 & -> & Hc & H).
  apply greedy_inv in H as (w & s4 & -> & Hw & H).
  apply one_inv in H as (d & s5 & -> & Hd & H).
  apply lazy_inv in H as (b & s6 & -> & Hb & H & Hmin).
  apply one_inv in H as (e & s7 & -> & He & H).
  injection H as <- <-. apply Ascii.eqb_eq in He. subst e.
  exists lead, (c :: w), (d :: b).
  split; [simpl; now rewrite <- ?app_assoc |].
  split; [assumption |].
  split; [simpl; now rewrite Hc |].
  split; [discriminate |].
  split; [discriminate |].
  split; [simpl; now rewrite Hd |].
  split; [simpl; eapply no_semi_of_min; exact Hmin |].
  simpl. now rewrite <- ?app_assoc.
Qed.


Lemma group1_two (a b : text) : group1 [b; a ++ b] = a.
Proof. unfold group1. simpl. apply between_app. Qed.

(** The line after the rewrite, in the parts of the line before it. *)
Lemma sub_key (key lead sp body rest : text) (v : Q) :
  body <> [] ->
  let line := lead ++ key ++ sp ++ body ++ ";"%char :: rest in
  rmatch (key_pattern key) line = Some (rest, [body ++ ";"%char :: rest; line]) ->
  sub (key_pattern key) (replacement v) line
  = lead ++ key ++ sp ++ fmt6 v ++ ";"%char :: rest.
Proof.
  intros Hbody line H.
  assert (E : line = (lead ++ key ++ sp ++ body ++ [";"%char]) ++ rest).
  { unfold line. now rewrite <- !app_assoc. }
  unfold rmatch, key_pattern in H. cbn [app] in H.
  unfold key_pattern. cbn [app].
  assert (Hm : lead ++ key ++ sp ++ body ++ [";"%char] <> []).
  { intros Hn. apply (f_equal (@length ascii)) in Hn.
    rewrite !length_app in Hn. simpl in Hn. lia. }
  rewrite E in H |- * at 1.
  rewrite (sub_bol_match _ (replacement v) _ rest _ Hm H).
  unfold replacement.
  replace ((lead ++ key ++ sp ++ body ++ [";"%char]) ++ rest)
    with ((lead ++ key ++ sp) ++ body ++ ";"%char :: rest)
    by (now rewrite <- !app_assoc).
  rewrite group1_two. now rewrite <- !app_assoc.
Qed.

Lemma rewrite_line_matching (kvs : list (text * Q)) (line : text) :
  rewrite_line kvs line =
  match matching_key kvs line with
  | Some (key, v) => sub (key_pattern key) (replacement v) line
  | None => line
  end.
Proof.
  induction kvs as [| [key v] kvs IH]; simpl; [reflexivity |].
  destruct (rmatch (key_pattern key) line); [reflexivity | exact IH].
Qed.

Lemma matching_key_matches (kvs : list (text * Q)) (line key : text) (v : Q) :
  matching_key kvs line = Some (key, v) ->
  In (key, v) kvs /\ rmatch (key_pattern key) line <> None.
Proof.
  induction kvs as [| [k' v'] kvs IH]; simpl; [discriminate |].
  destruct (rmatch (key_pattern k') line) eqn:E.
  - intros [= -> ->]. split; [now left | congruence].
  - intros H. destruct (IH H). split; [now right | assumption].
Qed.

(** The shape of a rewritten line. *)
Lemma rewrite_line_shape (kvs : list (text * Q)) (line key : text) (v : Q) :
  matching_key kvs line = Some (key, v) ->
  exists lead sp body rest,
    line = lead ++ key ++ sp ++ body ++ ";"%char :: rest /\
    forallb is_space lead = true /\
    forallb is_space sp = true /\ sp <> [] /\
    body <> [] /\ forallb not_semi (tl body) = true /\
    rewrite_line kvs line = lead ++ key ++ sp ++ fmt6 v ++ ";"%char :: rest.
Proof.
  intros Hm. rewrite rewrite_line_matching, Hm.
  destruct (matching_key_matches _ _ _ _ Hm) as [_ Hr].
  destruct (rmatch (key_pattern key) line) as [[rest mk] |] eqn:E; [| congruence].
  destruct (key_match_inv _ _ _ _ E)
    as (lead & sp & body & Hl & Hlead & Hsp & Hne & Hb & _ & Hsemi & ->).
  exists lead, sp, body, rest. repeat (split; [assumption |]).
  subst line. now apply sub_key.
Qed.

Lemma key_ok_inv (key : text) :
  key_ok key = true ->
  forallb non_space key = true /\ stops is_space key /\ key <> [].
Proof.
  destruct key as [| k0 key]; [discriminate |]. intros H.
  split; [exact H |]. split; [| discriminate].
  simpl in *. apply andb_prop in H as [H _]. unfold non_space in H.
  now destruct (is_space k0).
Qed.

Lemma stops_app (p : ascii -> bool) (a b : text) : a <> [] -> stops p a -> stops p (a ++ b).
Proof. destruct a; [congruence | trivial]. Qed.

Lemma spaces_stop (sp : text) :
  forallb is_space sp = true -> sp <> [] -> stops non_space sp.
Proof.
  destruct sp as [| c sp]; [congruence |]. simpl. intros H _.
  apply andb_prop in H as [H _]. unfold non_space. now rewrite H.
Qed.

(** Only one key can match a line that starts with white space, a key
    and white space. *)
Lemma other_key (key k' lead sp t : text) res :
  key_ok key = true -> key_ok k' = true ->
  forallb is_space lead = true -> forallb is_space sp = true -> sp <> [] ->
  rmatch (key_pattern k') (lead ++ key ++ sp ++ t) = Some res ->
  k' = key.
Proof.
  intros Hk Hk' Hlead Hsp Hne H. destruct res as [rest mk].
  destruct (key_match_inv _ _ _ _ H)
    as (lead' & sp' & body' & E & Hlead' & Hsp' & Hne' & _).
  destruct (key_ok_inv _ Hk) as (Hns & Hst & Hn).
  destruct (key_ok_inv _ Hk') as (Hns' & Hst' & Hn').
  destruct (run_unique is_space lead lead' _ _ Hlead Hlead'
              (stops_app _ _ _ Hn Hst) (stops_app _ _ _ Hn' Hst') E) as [_ E2].
  destruct (run_unique non_space key k' _ _ Hns Hns'
              (stops_app _ _ _ Hne (spaces_stop _ Hsp Hne))
              (stops_app _ _ _ Hne' (spaces_stop _ Hsp' Hne')) E2) as [E3 _].
  now symmetry.
Qed.


Lemma fmt6_value_ok (v : Q) :
  stops is_space (fmt6 v) /\ fmt6 v <> [] /\
  forallb dot (fmt6 v) = true /\ forallb not_semi (fmt6 v) = true /\
  no_break (fmt6 v).
Proof.
  assert (H := fmt6_num_chars v). assert (Hn := fmt6_nonempty v).
  assert (A : forall s, forallb num_char s = true ->
    forallb dot s = true /\ forallb not_semi s = true /\ no_break s /\ stops is_space s).
  { unfold no_break, not_semi. induction s as [| c s IH]; simpl; [auto |].
    intros Hs. apply andb_prop in Hs as [Hc Hs].
    destruct (num_char_plain _ Hc) as (H1 & H2 & H3 & H4).
    destruct (IH Hs) as (I1 & I2 & I3 & _).
    rewrite H1, H2, H3, H4, I1, I2, I3. auto. }
  destruct (A _ H) as (A1 & A2 & A3 & A4). auto.
Qed.


Lemma non_space_no_break (s : text) : forallb non_space s = true -> no_break s.
Proof.
  unfold no_break. induction s as [| c s IH]; simpl; [reflexivity |].
  intros H. apply andb_prop in H as [Hc Hs]. rewrite (IH Hs).
  unfold non_space in Hc. destruct (is_linebreak c) eqn:B; [| reflexivity].
  now rewrite (space_of_break _ B) in Hc.
Qed.

Lemma no_break_app (a b : text) : no_break (a ++ b) <-> no_break a /\ no_break b.
Proof. unfold no_break. rewrite forallb_app. apply andb_true_iff. Qed.

Lemma rewrite_line_no_break (kvs : list (text * Q)) (line : text) :
  forallb key_ok (map fst kvs) = true ->
  no_break line -> no_break (rewrite_line kvs line).
Proof.
  intros Hok Hline. destruct (matching_key kvs line) as [[key v] |] eqn:Hm.
  - destruct (rewrite_line_shape _ _ _ _ Hm)
      as (lead & sp & body & rest & Hl & _ & _ & _ & _ & _ & ->).
    assert (Hkey : key_ok key = true).
    { destruct (matching_key_matches _ _ _ _ Hm) as [Hin _].
      rewrite forallb_forall in Hok. apply Hok.
      apply in_map_iff. now exists (key, v). }
    destruct (key_ok_inv _ Hkey) as (Hns & _).
    destruct (fmt6_value_ok v) as (_ & _ & _ & _ & F).
    subst line. rewrite !no_break_app in Hline.
    destruct Hline as (L1 & _ & L3 & _ & L5).
    rewrite !no_break_app. repeat split; try assumption.
    now apply non_space_no_break.
  - rewrite rewrite_line_matching, Hm. exact Hline.
Qed.



Lemma values_keys (dom : bounds) (dx dy dz : Q) :
  forallb key_ok (map fst (values dom dx dy dz)) = true.
Proof. reflexivity. Qed.



End BlockMeshDictFacts.

(** ** Whole-word renaming in the field files *)

Module RenameFacts.
Import Str Regex CaseText StrFacts RegexFacts.






Section OneWord.

(** The word sought and its replacement. *)
Variable W : text.
Variable R : text.
Hypothesis W_nonempty : W <> [].
Hypothesis W_word : forallb is_word W = true.

Local Abbreviation P := (word_pattern W).
Local Abbreviation repl := (fun _ : list text => R).












End OneWord.

(** *** The tokens of a name followed by [Group] *)







(** *** The three substitutions together *)








(** *** Other targets are renamed twice *)





Section Growth.

Variables W R : text.



End Growth.





End RenameFacts.

(** ** The decomposition file and the refinement dictionary *)

Module CaseTextFacts.
Import Str Format Regex Geometry Script BlockMeshDict CaseText.
Import StrFacts RegexFacts FormatFacts BlockMeshDictFacts.
Local Open Scope Q_scope.

(** *** The refinement region *)

Lemma starts_min_step (loc rmin rmax L : text) (f : flags) :
  in_ref f = true -> startswith (strip L) (txt "min (") = true ->
  inject_step loc rmin rmax f L = (f, [rmin]).
Proof.
  intros Hf H. unfold inject_step. rewrite Hf, H.
  apply startswith_inv in H as [s' E]. rewrite E.
  destruct (text_eqb _ (txt "castellatedMeshControls")) eqn:E1.
  { apply text_eqb_eq in E1. discriminate E1. }
  destruct (text_eqb _ (txt "{")) eqn:E2.
  { apply text_eqb_eq in E2. discriminate E2. }
  rewrite andb_false_r. reflexivity.
Qed.

Lemma starts_max_step (loc rmin rmax L : text) (f : flags) :
  in_ref f = true -> startswith (strip L) (txt "max (") = true ->
  inject_step loc rmin rmax f L = (mkFlags (inject f) false, [rmax]).
Proof.
  intros Hf H. unfold inject_step. rewrite Hf, H.
  apply startswith_inv in H as [s' E]. rewrite E.
  destruct (text_eqb _ (txt "castellatedMeshControls")) eqn:E1.
  { apply text_eqb_eq in E1. discriminate E1. }
  destruct (text_eqb _ (txt "{")) eqn:E2.
  { apply text_eqb_eq in E2. discriminate E2. }
  rewrite andb_false_r. reflexivity.
Qed.



(** *** The subdomain count *)

Lemma str_of_int_num_chars (n : Z) : forallb num_char (str_of_int n) = true.
Proof.
  unfold str_of_int, NilZero.string_of_int.
  assert (U : forall u, forallb num_char (txt (NilZero.string_of_uint u)) = true).
  { intros u. apply digits_num_chars. unfold NilZero.string_of_uint.
    destruct u eqn:E; try reflexivity; rewrite <- E; apply uint_digits. }
  destruct (Z.to_int n) as [u | u]; [apply U |].
  change (txt (String "-" (NilZero.string_of_uint u)))
    with ("-"%char :: txt (NilZero.string_of_uint u)).
  simpl. apply U.
Qed.

Lemma num_chars_no_break (s : text) : forallb num_char s = true -> no_break s.
Proof.
  unfold no_break. induction s as [| c s IH]; simpl; [reflexivity |].
  intros H. apply andb_prop in H as [Hc Hs].
  destruct (num_char_plain _ Hc) as (_ & -> & _). now rewrite IH.
Qed.

Lemma subdomains_line_no_break (n : Z) : no_break (subdomains_line n).
Proof.
  unfold subdomains_line. rewrite !no_break_app. repeat split; try reflexivity.
  apply num_chars_no_break, str_of_int_num_chars.
Qed.

Lemma rstrip_keep (s : text) (c : ascii) :
  is_space c = false -> rstrip (s ++ [c]) = s ++ [c].
Proof.
  intros H. unfold rstrip. rewrite rev_app_distr. simpl. rewrite H.
  simpl. now rewrite rev_involutive.
Qed.

Lemma subdomains_line_is_key (n : Z) : is_subdomains_line (subdomains_line n) = true.
Proof.
  unfold is_subdomains_line, subdomains_line, strip.
  change (lstrip (txt "numberOfSubdomains " ++ str_of_int n ++ txt ";"))
    with (txt "numberOfSubdomains " ++ str_of_int n ++ txt ";").
  replace (txt "numberOfSubdomains " ++ str_of_int n ++ txt ";")
    with ((txt "numberOfSubdomains " ++ str_of_int n) ++ [";"%char])
    by now rewrite <- app_assoc.
  rewrite rstrip_keep by reflexivity.
  change (txt "numberOfSubdomains ") with (subdomains_key ++ txt " ").
  rewrite <- !app_assoc. apply startswith_app.
Qed.

Lemma patch_line_is_key (n : Z) (L : text) :
  is_subdomains_line (patch_line n L) = is_subdomains_line L.
Proof.
  unfold patch_line. destruct (is_subdomains_line L) eqn:E; [| exact E].
  apply subdomains_line_is_key.
Qed.

Lemma patch_line_no_break (n : Z) (L : text) : no_break L -> no_break (patch_line n L).
Proof.
  unfold patch_line. destruct (is_subdomains_line L); [| trivial].
  intros _. apply subdomains_line_no_break.
Qed.

(** The lines of the patched file are the patched lines of the template. *)
Lemma patch_decompose_lines (n : Z) (content : text) :
  splitlines (patch_decompose n content) = map (patch_line n) (splitlines content).
Proof.
  unfold patch_decompose.
  rewrite <- (map_map (patch_line n) (fun l => l ++ NL)).
  apply splitlines_concat. apply Forall_map.
  eapply Forall_impl; [| apply splitlines_no_break].
  intros a. apply patch_line_no_break.
Qed.

Lemma filter_patched (n : Z) (ls : list text) :
  filter is_subdomains_line (map (patch_line n) ls)
  = repeat (subdomains_line n) (length (filter is_subdomains_line ls)).
Proof.
  induction ls as [| L ls IH]; [reflexivity |]. cbn [map filter].
  rewrite patch_line_is_key. destruct (is_subdomains_line L) eqn:E.
  - cbn [length repeat]. rewrite IH. unfold patch_line. now rewrite E.
  - exact IH.
Qed.

(** C6 (as stated) fails: a template without the key gives a file
    without it, and a template with the key on two lines gives a file
    with two such lines. *)
Lemma C6_counterexample :
  key_lines (patch_decompose 4 (txt "method scotch;")) = [] /\
  key_lines (patch_decompose 4
     (txt "numberOfSubdomains 2;" ++ NL ++ txt "numberOfSubdomains 8;"))
  = [txt "numberOfSubdomains 4;"; txt "numberOfSubdomains 4;"].
Proof. split; vm_compute; reflexivity. Qed.

(** C6 (amended). The generated file has as many lines matching the
    subdomain-count key as the template, each of them the key set to
    [n]; in particular exactly one when the template has exactly one;
    every line of the template that does not match the key is at its
    place, unchanged. *)
Theorem C6_subdomain_count (n : Z) (content : text) :
  key_lines (patch_decompose n content)
  = repeat (subdomains_line n) (length (key_lines content)) /\
  (length (key_lines content) = 1%nat ->
   key_lines (patch_decompose n content) = [subdomains_line n]) /\
  length (splitlines (patch_decompose n content)) = length (splitlines content) /\
  (forall (i : nat) (L : text),
      nth_error (splitlines content) i = Some L ->
      is_subdomains_line L = false ->
      nth_error (splitlines (patch_decompose n content)) i = Some L).
Proof.
  unfold key_lines. rewrite patch_decompose_lines.
  split; [apply filter_patched |]. split; [| split].
  - intros H. now rewrite filter_patched, H.
  - apply length_map.
  - intros i L Hi HL. rewrite nth_error_map, Hi. simpl.
    unfold patch_line. now rewrite HL.
Qed.

Lemma C6_subdomain_count_witness :
  key_lines (patch_decompose 4
     (txt "method scotch;" ++ NL ++ txt "  numberOfSubdomains 2; // cores" ++ NL))
  = [txt "numberOfSubdomains 4;"].
Proof.
  destruct (C6_subdomain_count 4
     (txt "method scotch;" ++ NL ++ txt "  numberOfSubdomains 2; // cores" ++ NL))
    as (_ & H & _).
  rewrite H; reflexivity.
Defined.

(** *** Templates that lack a header, a brace or a key *)

Ltac one_line :=
  do 2 eexists; split; [reflexivity |]; repeat split; auto.

Section Injection.

Variables loc rmin rmax : text.

Local Abbreviation step := (inject_step loc rmin rmax).
Local Abbreviation run_lines := (inject_lines loc rmin rmax).

(** Without the header line the flag [inject] stays down and one line
    goes out for every line read. *)
Lemma step_no_header (f : flags) (L : text) :
  is_header L = false -> inject f = false ->
  exists f' O, step f L = (f', [O]) /\ inject f' = false /\
               (O = L \/ O = rmin \/ O = rmax).
Proof.
  unfold is_header, inject_step. intros HL Hf. rewrite HL, Hf. cbn [andb].
  destruct (startswith (strip L) (txt "refinementBox")); [one_line |].
  destruct (in_ref f); cbn [andb]; [| one_line].
  destruct (startswith (strip L) (txt "min (")); [one_line |].
  destruct (startswith (strip L) (txt "max (")); one_line.
Qed.

Lemma step_no_brace (f : flags) (L : text) :
  is_brace L = false ->
  exists f' O, step f L = (f', [O]) /\ (O = L \/ O = rmin \/ O = rmax).
Proof.
  unfold is_brace, inject_step. intros HL. rewrite HL, andb_false_r.
  destruct (text_eqb (strip L) (txt "castellatedMeshControls")); [one_line |].
  destruct (startswith (strip L) (txt "refinementBox")); [one_line |].
  destruct (in_ref f); cbn [andb]; [| one_line].
  destruct (startswith (strip L) (txt "min (")); [one_line |].
  destruct (startswith (strip L) (txt "max (")); one_line.
Qed.

(** Without a [refinementBox] line the flag [in_ref] stays down and no
    line is overwritten. *)
Lemma step_no_ref_box (f : flags) (L : text) :
  is_ref_box L = false -> in_ref f = false ->
  exists f' o, step f L = (f', o) /\ in_ref f' = false /\
               (o = [L] \/ o = [L; loc]).
Proof.
  unfold is_ref_box, inject_step. intros HL Hf. rewrite HL, Hf. cbn [andb].
  destruct (text_eqb (strip L) (txt "castellatedMeshControls")); [one_line |].
  destruct (inject f && text_eqb (strip L) (txt "{")); one_line.
Qed.

(** A line that is no [min (] or [max (] entry is not overwritten. *)
Lemma step_no_min_max (f : flags) (L : text) :
  is_min_max L = false ->
  exists f' o, step f L = (f', o) /\ (o = [L] \/ o = [L; loc]).
Proof.
  unfold is_min_max, inject_step. intros HL.
  apply orb_false_elim in HL as [H1 H2]. rewrite H1, H2, !andb_false_r.
  destruct (text_eqb (strip L) (txt "castellatedMeshControls")); [one_line |].
  destruct (inject f && text_eqb (strip L) (txt "{")); [one_line |].
  destruct (startswith (strip L) (txt "refinementBox")); one_line.
Qed.

Lemma step_plain (L : text) :
  is_header L = false -> is_ref_box L = false ->
  step (mkFlags false false) L = (mkFlags false false, [L]).
Proof. unfold is_header, is_ref_box, inject_step. now intros -> ->. Qed.

Lemma lines_no_header (lines : list text) (f : flags) :
  Forall (fun L => is_header L = false) lines -> inject f = false ->
  Forall2 (kept_or_overwritten rmin rmax) lines (run_lines f lines).
Proof.
  intros H. revert f. induction H as [| L lines HL _ IH]; intros f Hf; simpl.
  - constructor.
  - destruct (step_no_header f L HL Hf) as (f' & O & -> & Hf' & HO).
    simpl. constructor; [exact HO | now apply IH].
Qed.

Lemma lines_no_brace (lines : list text) (f : flags) :
  Forall (fun L => is_brace L = false) lines ->
  Forall2 (kept_or_overwritten rmin rmax) lines (run_lines f lines).
Proof.
  intros H. revert f. induction H as [| L lines HL _ IH]; intros f; simpl.
  - constructor.
  - destruct (step_no_brace f L HL) as (f' & O & -> & HO).
    simpl. constructor; [exact HO | apply IH].
Qed.

Lemma lines_no_ref_box (lines : list text) (f : flags) :
  Forall (fun L => is_ref_box L = false) lines -> in_ref f = false ->
  Forall (fun O => In O lines \/ O = loc) (run_lines f lines).
Proof.
  intros H. revert f. induction H as [| L lines HL _ IH]; intros f Hf; simpl.
  - constructor.
  - destruct (step_no_ref_box f L HL Hf) as (f' & o & -> & Hf' & Ho).
    apply Forall_app. split.
    + assert (HL' : In L (L :: lines) \/ L = loc) by (left; now left).
      destruct Ho as [-> | ->].
      * constructor; [exact HL' | constructor].
      * constructor; [exact HL' | constructor; [now right | constructor]].
    + eapply Forall_impl; [| apply (IH f' Hf')].
      intros O [HO | HO]; [left; now right | now right].
Qed.

Lemma lines_no_min_max (lines : list text) (f : flags) :
  Forall (fun L => is_min_max L = false) lines ->
  Forall (fun O => In O lines \/ O = loc) (run_lines f lines).
Proof.
  intros H. revert f. induction H as [| L lines HL _ IH]; intros f; simpl.
  - constructor.
  - destruct (step_no_min_max f L HL) as (f' & o & -> & Ho).
    apply Forall_app. split.
    + assert (HL' : In L (L :: lines) \/ L = loc) by (left; now left).
      destruct Ho as [-> | ->].
      * constructor; [exact HL' | constructor].
      * constructor; [exact HL' | constructor; [now right | constructor]].
    + eapply Forall_impl; [| apply (IH f')].
      intros O [HO | HO]; [left; now right | now right].
Qed.

Lemma lines_plain (lines : list text) :
  Forall (fun L => is_header L = false) lines ->
  Forall (fun L => is_ref_box L = false) lines ->
  run_lines (mkFlags false false) lines = lines.
Proof.
  induction lines as [| L lines IH]; intros H1 H2; [reflexivity |].
  inversion H1; subst. inversion H2; subst. simpl.
  rewrite step_plain by assumption. simpl. now rewrite IH.
Qed.

End Injection.

Lemma rewrite_text_no_key (kvs : list (text * Q)) (t : text) :
  Forall (fun line => matching_key kvs line = None) (splitlines t) ->
  rewrite_text kvs t = join NL (splitlines t) ++ NL.
Proof.
  intros H. unfold rewrite_text. f_equal. f_equal.
  rewrite <- (map_id (splitlines t)) at 2. apply map_ext_Forall.
  eapply Forall_impl; [| exact H]. intros line Hm.
  now rewrite rewrite_line_matching, Hm.
Qed.

(** C7 (as stated) fails: no script raises a template error. A
    blockMeshDict template without any of the keys is written out as it
    is, and a snappyHexMeshDict template without the
    [castellatedMeshControls] header comes out without the
    [locationInMesh] line. *)
Lemma C7_counterexample :
  BlockMeshDict.main (txt "convertToMeters 1;") [(0, 0, 0); (1, 1, 1)] [1; 1; 1]
  = Return (txt "convertToMeters 1;" ++ NL) /\
  BlockMeshDict.main (txt "convertToMeters 1;") [(0, 0, 0); (1, 1, 1)] [1; 1; 1]
  <> Raise TemplateFormatError /\
  snappy_dict (txt "geometry { }") (txt "wing") (txt "wing.stl")
    unit_cube (domain_box unit_cube)
  = txt "geometry { }" ++ NL.
Proof. repeat split; vm_compute; congruence. Qed.

(** C7 (amended). The substitution engine does not fail on a template
    that lacks what a substitution refers to; it leaves the substitution
    out. Without the header, or without a brace line, no line is
    inserted: line by line the output is the template's line or one of
    the two overwriting lines. Without a [refinementBox] line, or
    without [min (] and [max (] entries, no line is overwritten. Without
    header and [refinementBox] the lines come out as they are. A
    blockMeshDict template is rewritten whatever it contains, and when no
    line matches a key its lines come out as they are. *)
Theorem C7_missing_tokens :
  (forall (loc rmin rmax : text) (lines : list text),
      (Forall (fun L => is_header L = false) lines \/
       Forall (fun L => is_brace L = false) lines ->
       Forall2 (kept_or_overwritten rmin rmax) lines
         (inject_lines loc rmin rmax (mkFlags false false) lines)) /\
      (Forall (fun L => is_ref_box L = false) lines \/
       Forall (fun L => is_min_max L = false) lines ->
       Forall (fun O => In O lines \/ O = loc)
         (inject_lines loc rmin rmax (mkFlags false false) lines)) /\
      (Forall (fun L => is_header L = false) lines ->
       Forall (fun L => is_ref_box L = false) lines ->
       inject_lines loc rmin rmax (mkFlags false false) lines = lines)) /\
  (forall (template : text) (pts : list point) (b : bounds) (dx dy dz : Q),
      compute_bounds pts = Some b ->
      BlockMeshDict.main template pts [dx; dy; dz]
      = Return (rewrite_text (values (domain_box b) dx dy dz) template)) /\
  (forall (kvs : list (text * Q)) (template : text),
      Forall (fun line => matching_key kvs line = None) (splitlines template) ->
      rewrite_text kvs template = join NL (splitlines template) ++ NL) /\
  (forall (template : text) (pts : list point) (cells : list Q),
      BlockMeshDict.main template pts cells <> Raise TemplateFormatError).
Proof.
  split; [| split; [| split]].
  - intros loc rmin rmax lines. split; [| split].
    + intros [H | H].
      * apply lines_no_header; auto.
      * now apply lines_no_brace.
    + intros [H | H].
      * now apply lines_no_ref_box.
      * now apply lines_no_min_max.
    + apply lines_plain.
  - intros template pts b dx dy dz H. unfold BlockMeshDict.main. now rewrite H.
  - apply rewrite_text_no_key.
  - intros template pts cells. unfold BlockMeshDict.main.
    destruct (compute_bounds pts); [| discriminate].
    destruct cells as [| ? [| ? [| ? [| ? ?]]]]; discriminate.
Qed.

Lemma C7_missing_tokens_witness :
  inject_lines (txt "loc") (txt "lo") (txt "hi") (mkFlags false false)
    [txt "geometry"; txt "{"; txt "}"]
  = [txt "geometry"; txt "{"; txt "}"].
Proof.
  destruct C7_missing_tokens as (H & _).
  destruct (H (txt "loc") (txt "lo") (txt "hi") [txt "geometry"; txt "{"; txt "}"])
    as (_ & _ & H3).
  apply H3; repeat constructor.
Defined.

End CaseTextFacts.

(** ** The pipeline controller *)

Module RunFacts.
Import Str Format Regex Script Run.

(** *** Processes in sequence *)

Lemma orderly_nil {A : Type} (o : outcome A) :
  (forall e, o = Raise e -> forall cmd code, e <> CalledProcessError cmd code) ->
  orderly [] o.
Proof.
  intros H. destruct o as [a | e]; simpl; [constructor |].
  left. split; [constructor | now apply H].
Qed.

Lemma sequenced_ret {A : Type} (a : A) : sequenced (ret a).
Proof. intros st. exists []. simpl. rewrite app_nil_r. split; [reflexivity | constructor]. Qed.

Lemma sequenced_lift {A : Type} (o : outcome A) :
  (forall e, o = Raise e -> forall cmd code, e <> CalledProcessError cmd code) ->
  sequenced (lift o).
Proof.
  intros H st. exists []. simpl. rewrite app_nil_r.
  split; [reflexivity | now apply orderly_nil].
Qed.

Lemma sequenced_input : sequenced input.
Proof.
  intros st. exists []. unfold input. rewrite app_nil_r.
  destruct (stdin st); simpl; split; try reflexivity.
  - left. split; [constructor | discriminate].
  - constructor.
Qed.

Lemma sequenced_emit (e : event) : event_ok e -> sequenced (emit e).
Proof.
  intros H st. exists [e]. simpl. split; [reflexivity |]. now constructor.
Qed.

Lemma sequenced_bind {A B : Type} (m : M state A) (f : A -> M state B) :
  sequenced m -> (forall a, sequenced (f a)) -> sequenced (bind m f).
Proof.
  intros Hm Hf st. unfold bind.
  destruct (Hm st) as (s1 & E1 & O1). destruct (m st) as [[a | e] st1]; simpl in *.
  - destruct (Hf a st1) as (s2 & E2 & O2). exists (s1 ++ s2).
    rewrite E2, E1, app_assoc. split; [reflexivity |].
    destruct (f a st1) as [[b | e] st2]; simpl in *.
    + now apply Forall_app.
    + destruct O2 as [[O2 N] | (pre & cmd & lf & code & -> & O2 & N & ->)].
      * left. split; [now apply Forall_app | assumption].
      * right. exists (s1 ++ pre), cmd, lf, code.
        rewrite app_assoc. repeat split; try assumption. now apply Forall_app.
  - exists s1. split; assumption.
Qed.

Lemma sequenced_checked (w : env) (cmd : text) (lf : option text) :
  sequenced (checked w cmd lf).
Proof.
  intros st. unfold checked, bind, get, emit, modify. simpl.
  exists [Exec cmd lf (exit_status w (log st) cmd)].
  destruct (exit_status w (log st) cmd =? 0)%Z eqn:E; simpl.
  - apply Z.eqb_eq in E. split; [reflexivity |]. repeat constructor. exact E.
  - apply Z.eqb_neq in E. split; [reflexivity |].
    right. exists [], cmd, lf, (exit_status w (log st) cmd).
    repeat split; [constructor | assumption].
Qed.

Lemma sequenced_when (b : bool) (m : M state unit) : sequenced m -> sequenced (when b m).
Proof. destruct b; [trivial | intros _; apply sequenced_ret]. Qed.

Lemma sequenced_for_each {A : Type} (xs : list A) (body : A -> M state unit) :
  (forall x, sequenced (body x)) -> sequenced (for_each xs body).
Proof.
  intros H. induction xs as [| x xs IH]; simpl.
  - apply sequenced_ret.
  - apply sequenced_bind; [apply H | intros _; exact IH].
Qed.

Lemma of_option_value_error {A : Type} (o : option A) (e : exn) :
  of_option ValueError o = Raise e -> forall cmd code, e <> CalledProcessError cmd code.
Proof. destruct o; simpl; [discriminate |]. intros [= <-]. discriminate. Qed.

Create HintDb sequenced.
#[local] Hint Resolve sequenced_ret sequenced_input sequenced_checked
  sequenced_when sequenced_for_each : sequenced.
#[local] Hint Extern 2 (sequenced (bind _ _)) =>
  apply sequenced_bind; [| intro] : sequenced.
#[local] Hint Extern 2 (sequenced (emit _)) =>
  apply sequenced_emit; exact I : sequenced.
#[local] Hint Extern 2 (sequenced (lift _)) =>
  apply sequenced_lift; intro; apply of_option_value_error : sequenced.
#[local] Hint Extern 3 (sequenced (if ?b then _ else _)) => destruct b : sequenced.
#[local] Hint Extern 3 (sequenced (match ?s with [] => _ | _ :: _ => _ end)) =>
  destruct s : sequenced.

Lemma sequenced_read_count : sequenced read_count.
Proof. unfold read_count. auto 10 with sequenced. Qed.

Lemma sequenced_stage3 (w : env) : sequenced (stage3 w).
Proof.
  unfold stage3, run_and_log. pose proof sequenced_read_count.
  auto 20 with sequenced.
Qed.

Lemma sequenced_stage5 (w : env) (nproc : Z) : sequenced (stage5 w nproc).
Proof. unfold stage5, run_and_log. auto 20 with sequenced. Qed.

Lemma sequenced_main (w : env) : sequenced (main w).
Proof.
  unfold main, ensure_case, stage1, stage2, stage4, run_and_log.
  pose proof (sequenced_stage3 w). pose proof (sequenced_stage5 w).
  auto 20 with sequenced.
Qed.

(** A process that failed is the last event of the run, and the run
    ends with its exception. *)
Lemma failure_is_last (w : env) (st : state) pre cmd lf code post :
  log (snd (main w st)) = log st ++ pre ++ Exec cmd lf code :: post ->
  code <> 0%Z ->
  post = [] /\ fst (main w st) = Raise (CalledProcessError cmd code).
Proof.
  intros E Hcode. destruct (sequenced_main w st) as (suffix & E' & O).
  rewrite E' in E. apply app_inv_head in E. subst suffix.
  assert (Hbad : ~ Forall event_ok (pre ++ Exec cmd lf code :: post)).
  { intros F. apply Forall_app in F as [_ F]. inversion F; subst. contradiction. }
  destruct (fst (main w st)) as [a | e]; simpl in O; [contradiction |].
  destruct O as [[O _] | (pre' & cmd' & lf' & code' & E & O & N & ->)];
    [contradiction |].
  destruct post as [| x post] using rev_ind.
  - apply app_inj_tail in E as [_ [= -> _ ->]]. now split.
  - clear IHpost. exfalso.
    rewrite app_comm_cons, app_assoc in E. apply app_inj_tail in E as [<- _].
    apply Forall_app in O as [_ O]. inversion O; subst. contradiction.
Qed.

Lemma bind_return {A B : Type} (m : M state A) (f : A -> M state B) st a st' :
  m st = (Return a, st') -> bind m f st = f a st'.
Proof. unfold bind. now intros ->. Qed.

Lemma bind_raise {A B : Type} (m : M state A) (f : A -> M state B) st e st' :
  m st = (Raise e, st') -> bind m f st = (Raise e, st').
Proof. unfold bind. now intros ->. Qed.

Lemma checked_ok (w : env) cmd lf st :
  exit_status w (log st) cmd = 0%Z ->
  checked w cmd lf st = (Return tt, mkState (stdin st) (log st ++ [Exec cmd lf 0])).
Proof. intros H. unfold checked, bind, get, emit, modify. cbn. now rewrite H. Qed.

Lemma checked_fails (w : env) cmd lf st :
  exit_status w (log st) cmd <> 0%Z ->
  checked w cmd lf st
  = (Raise (CalledProcessError cmd (exit_status w (log st) cmd)),
     mkState (stdin st) (log st ++ [Exec cmd lf (exit_status w (log st) cmd)])).
Proof.
  intros H. unfold checked, bind, get, emit, modify. cbn.
  apply Z.eqb_neq in H. now rewrite H.
Qed.

(** C8. When stage 1 has ended well, blockMesh has exited with status 0
    and the feature extraction exits with another status, the run ends
    there with the exception that names the command and its status:
    nothing more is started and no question is asked. In every run a
    process that exits with a status other than 0 is the last event, so
    no stage begins unless all processes before it have succeeded. *)
Theorem C8_abort_on_failure (w : env) (st : state) :
  (forall st1 code,
      stl_files w <> [] ->
      (ensure_case w ;; stage1 w)%script st = (Return tt, st1) ->
      exit_status w (log st1) (txt "blockMesh") = 0%Z ->
      exit_status w
        (log st1 ++ [Exec (txt "blockMesh") (Some (txt "log_blockMesh.txt")) 0])
        (txt "surfaceFeatureExtract") = code ->
      code <> 0%Z ->
      main w st
      = (Raise (CalledProcessError (txt "surfaceFeatureExtract") code),
         mkState (stdin st1)
           (log st1
            ++ [Exec (txt "blockMesh") (Some (txt "log_blockMesh.txt")) 0;
                Exec (txt "surfaceFeatureExtract")
                  (Some (txt "log_surfaceFeatureExtract.txt")) code]))) /\
  (forall pre cmd lf code post,
      log (snd (main w st)) = log st ++ pre ++ Exec cmd lf code :: post ->
      code <> 0%Z ->
      post = [] /\ fst (main w st) = Raise (CalledProcessError cmd code)).
Proof.
  split; [| apply failure_is_last].
  intros st1 code Hstl H1 Hbm Hfe Hcode. unfold main.
  destruct (stl_files w) as [| f fs]; [congruence |].
  unfold bind in H1 |- *.
  destruct (ensure_case w st) as [[[] | e] s0]; [| discriminate].
  destruct (stage1 w s0) as [[[] | e] s1]; [| discriminate].
  injection H1 as ->.
  unfold stage2, run_and_log.
  fold (bind (checked w (txt "blockMesh") (Some (txt "log_blockMesh.txt")))
          (fun _ => checked w (txt "surfaceFeatureExtract")
                      (Some (txt "log_surfaceFeatureExtract.txt"))) st1).
  rewrite (bind_return _ _ _ _ _ (checked_ok w _ _ st1 Hbm)).
  rewrite checked_fails by (cbn [log]; congruence).
  cbn [log stdin]. rewrite Hfe. now rewrite <- app_assoc.
Qed.

Lemma C8_abort_on_failure_witness :
  main broken_env (start [txt "y"; txt "8"; txt "y"])
  = (Raise (CalledProcessError (txt "surfaceFeatureExtract") 1),
     mkState [txt "y"; txt "8"; txt "y"]
       [Rmtree CASE; Mkdir CASE; Exec case_script_cmd None 0;
        Exec (txt "blockMesh") (Some (txt "log_blockMesh.txt")) 0;
        Exec (txt "surfaceFeatureExtract")
          (Some (txt "log_surfaceFeatureExtract.txt")) 1]).
Proof.
  destruct (C8_abort_on_failure broken_env (start [txt "y"; txt "8"; txt "y"]))
    as [H _].
  apply (H (mkState [txt "y"; txt "8"; txt "y"]
              [Rmtree CASE; Mkdir CASE; Exec case_script_cmd None 0]) 1%Z).
  - discriminate.
  - reflexivity.
  - reflexivity.
  - reflexivity.
  - discriminate.
Defined.

(** *** Runs in which nothing fails *)

Section Calm.

Variable w : env.
Hypothesis w_calm : calm w.

Lemma checked_calm cmd lf st :
  checked w cmd lf st = (Return tt, mkState (stdin st) (log st ++ [Exec cmd lf 0])).
Proof. apply checked_ok, w_calm. Qed.

Lemma ensure_case_eq st :
  ensure_case w st
  = (Return tt,
     mkState (stdin st)
       (log st ++ (if case_exists w then [Rmtree CASE] else []) ++ [Mkdir CASE])).
Proof.
  unfold ensure_case, when, bind, emit, modify, ret.
  destruct (case_exists w); cbn; now rewrite <- ?app_assoc.
Qed.

Lemma stage2_calm st :
  stage2 w st
  = (Return tt,
     mkState (stdin st)
       (log st ++ [Exec (txt "blockMesh") (Some (txt "log_blockMesh.txt")) 0;
                   Exec (txt "surfaceFeatureExtract")
                     (Some (txt "log_surfaceFeatureExtract.txt")) 0])).
Proof.
  unfold stage2, run_and_log.
  rewrite (bind_return _ _ _ _ _ (checked_calm _ _ _)), checked_calm.
  cbn. now rewrite <- app_assoc.
Qed.

Lemma for_each_rmtree (dirs : list text) st :
  for_each dirs (fun procdir => emit (Rmtree procdir)) st
  = (Return tt, mkState (stdin st) (log st ++ map Rmtree dirs)).
Proof.
  revert st. induction dirs as [| d dirs IH]; intros st; simpl.
  - unfold ret. rewrite app_nil_r. now destruct st.
  - unfold bind, emit, modify. cbn. rewrite IH. cbn. now rewrite <- app_assoc.
Qed.

Lemma read_count_eq (cnt : text) (n : Z) rest lg :
  count_of cnt = Some n ->
  read_count (mkState (cnt :: rest) lg) = (Return n, mkState rest lg).
Proof.
  unfold count_of, read_count, bind, input. cbn.
  destruct (strip cnt); [now intros [= <-] |]. now intros ->.
Qed.

(** Stage 3: the answer decides between the two ways, the count is read
    only on the parallel one. *)
Lemma stage3_calm (a cnt : text) (n : Z) (rest : list text) lg :
  count_of cnt = Some n ->
  stage3 w (mkState (a :: (if is_yes a then [cnt] else []) ++ rest) lg)
  = (Return (if is_yes a then n else 1%Z),
     mkState rest
       (lg ++ refine_events (is_yes a) (if is_yes a then n else 1%Z)
                (processor_dirs w))).
Proof.
  intros Hn. unfold stage3, refine_events, run_and_log.
  unfold bind at 1. unfold input at 1. cbn [stdin log].
  destruct (is_yes a).
  - cbn [app]. unfold bind at 1. rewrite (read_count_eq _ _ _ _ Hn).
    unfold bind at 1.
    rewrite (bind_return _ _ _ _ _ (checked_calm _ _ _)).
    rewrite (bind_return _ _ _ _ _ (checked_calm _ _ _)).
    rewrite (bind_return _ _ _ _ _ (checked_calm _ _ _)).
    rewrite for_each_rmtree. cbn. now rewrite <- !app_assoc.
  - cbn [app]. unfold bind at 1. unfold ret at 1.
    unfold bind at 1. rewrite checked_calm. reflexivity.
Qed.

Lemma stage4_eq st :
  stage4 w st = (Return tt, mkState (stdin st) (log st ++ finalize_events w)).
Proof.
  unfold stage4, finalize_events, when. destruct (foam_exists w); cbn.
  - unfold ret. rewrite app_nil_r. now destruct st.
  - reflexivity.
Qed.

(** Stage 5: one answer is read; the count is the one handed over. *)
Lemma stage5_calm (a : text) (nproc : Z) (rest : list text) lg :
  stage5 w nproc (mkState (a :: rest) lg)
  = (Return tt,
     mkState rest
       (lg ++ solve_events (is_yes a) nproc (select_solver (controlDict w)))).
Proof.
  unfold stage5, solve_events, run_and_log.
  unfold bind at 1. unfold input at 1. cbn [stdin log].
  destruct (is_yes a).
  - rewrite (bind_return _ _ _ _ _ (checked_calm _ _ _)).
    rewrite (bind_return _ _ _ _ _ (checked_calm _ _ _)).
    rewrite checked_calm. cbn. now rewrite <- !app_assoc.
  - now rewrite checked_calm.
Qed.

Lemma main_calm (a1 cnt a2 : text) (n : Z) (rest : list text) :
  stl_files w <> [] ->
  count_of cnt = Some n ->
  let nproc := if is_yes a1 then n else 1%Z in
  main w (start (a1 :: (if is_yes a1 then [cnt] else []) ++ a2 :: rest))
  = (Return tt,
     mkState rest
       (opening_events w
        ++ refine_events (is_yes a1) nproc (processor_dirs w)
        ++ finalize_events w
        ++ solve_events (is_yes a2) nproc (select_solver (controlDict w)))).
Proof.
  intros Hstl Hn nproc. unfold main, start.
  destruct (stl_files w) as [| f fs]; [congruence |].
  rewrite (bind_return _ _ _ _ _ (ensure_case_eq _)).
  unfold stage1. rewrite (bind_return _ _ _ _ _ (checked_calm _ _ _)).
  rewrite (bind_return _ _ _ _ _ (stage2_calm _)).
  cbn [stdin log].
  rewrite (bind_return _ _ _ _ _ (stage3_calm _ _ _ _ _ Hn)).
  rewrite (bind_return _ _ _ _ _ (stage4_eq _)).
  cbn [stdin log]. rewrite stage5_calm.
  unfold opening_events, nproc. f_equal. f_equal.
  cbn [app]. now rewrite <- !app_assoc.
Qed.

End Calm.

(** C10 (as stated) fails: the solve point asks for no worker count. With
    the same answer at the solve point the solver runs on 1 or on 8
    workers according to the answers given at the refinement point, and a
    count offered at the solve point is left unread. *)
Lemma C10_counterexample :
  command_of (txt "log_solver.txt")
    (log (snd (main calm_env (start [txt "n"; txt "y"; txt "6"]))))
  = Some (txt "mpirun -np 1 simpleFoam -parallel") /\
  stdin (snd (main calm_env (start [txt "n"; txt "y"; txt "6"]))) = [txt "6"] /\
  command_of (txt "log_solver.txt")
    (log (snd (main calm_env (start [txt "y"; txt "8"; txt "y"; txt "6"]))))
  = Some (txt "mpirun -np 8 simpleFoam -parallel").
Proof. repeat split; vm_compute; reflexivity. Qed.

(** C10 (amended). In a run in which nothing fails each of the two
    points takes the serial or the parallel way by its own answer alone.
    A worker count is read at the refinement point only, when that point
    runs in parallel (4 for an empty line), and a parallel solve after a
    parallel refinement runs with that same count; the solve point reads
    one line, its answer. *)
Theorem C10_decision_points (w : env) (a1 cnt a2 : text) (n : Z) (rest : list text) :
  calm w -> stl_files w <> [] -> count_of cnt = Some n ->
  (is_yes a1 = true ->
   main w (start (a1 :: cnt :: a2 :: rest))
   = (Return tt,
      mkState rest
        (opening_events w
         ++ refine_events true n (processor_dirs w)
         ++ finalize_events w
         ++ solve_events (is_yes a2) n (select_solver (controlDict w))))) /\
  (is_yes a1 = false ->
   exists k,
     main w (start (a1 :: a2 :: rest))
     = (Return tt,
        mkState rest
          (opening_events w
           ++ refine_events false k (processor_dirs w)
           ++ finalize_events w
           ++ solve_events (is_yes a2) k (select_solver (controlDict w))))).
Proof.
  intros Hw Hstl Hn.
  assert (H := main_calm w Hw a1 cnt a2 n rest Hstl Hn). cbv zeta in H.
  split; intros Ha; rewrite Ha in H; [exact H |]. now exists 1%Z.
Qed.

Lemma C10_decision_points_witness :
  main calm_env (start [txt "y"; txt "8"; txt "n"])
  = (Return tt,
     mkState []
       (opening_events calm_env
        ++ refine_events true 8 []
        ++ finalize_events calm_env
        ++ solve_events false 8 (txt "simpleFoam"))).
Proof.
  destruct (C10_decision_points calm_env (txt "y") (txt "8") (txt "n") 8%Z [])
    as [H _].
  - intros h cmd. reflexivity.
  - discriminate.
  - reflexivity.
  - apply H. reflexivity.
Defined.

End RunFacts.

(** ** Case preparation *)

Module CaseStructureFacts.
Import Str Script CaseText CaseStructure.

(** C9 (as stated) fails. Without a surface file the script ends with
    [FileNotFoundError], but the case directory of an earlier run has by
    then been replaced by a copy of the template. With a surface without
    facets the script ends with [CalledProcessError] and leaves a case
    whose field file and decomposition file are patched and whose
    refinement dictionary is missing. *)
Lemma C9_counterexample :
  (fst (case_structure no_surface 4 (mkState (Some old_case) []))
   = Raise FileNotFoundError /\
   case_dir (snd (case_structure no_surface 4 (mkState (Some old_case) [])))
   = Some (Text <$> small_template) /\
   case_dir (snd (case_structure no_surface 4 (mkState (Some old_case) [])))
   <> Some old_case) /\
  (fst (case_structure empty_surface 4 (mkState (Some old_case) []))
   = Raise (CalledProcessError block_cmd 1) /\
   (case_dir (snd (case_structure empty_surface 4 (mkState (Some old_case) [])))
      ≫= (fun t => t !! "system/decomposeParDict"%string))
   = Some (Text (txt "numberOfSubdomains 4;" ++ NL)) /\
   (case_dir (snd (case_structure empty_surface 4 (mkState (Some old_case) [])))
      ≫= (fun t => t !! "system/snappyHexMeshDict"%string))
   = None).
Proof.
  split; [split; [| split] | split; [| split]].
  - vm_compute. reflexivity.
  - vm_compute. reflexivity.
  - intros H.
    apply (f_equal (fun c => c ≫= (fun t : tree => t !! "log_solver.txt"%string))) in H.
    vm_compute in H. discriminate H.
  - vm_compute. reflexivity.
  - vm_compute. reflexivity.
  - vm_compute. reflexivity.
Qed.

(** C9 (amended). When the templates are there and the input folder
    holds no surface file, the script ends with [FileNotFoundError]
    before any subprocess is started and before any file is patched; the
    case directory is then a fresh copy of the template, whatever it was
    before, since the directory is recreated before the surface is
    looked for. The pipeline controller, which looks for the surface
    before anything else, returns without any event. *)
Theorem C9_discovery_failure :
  (forall (w : CaseStructure.env) (nSub : Z) (st : CaseStructure.state)
          tc sn su folder,
      template_case w = Some tc ->
      snappy_tmpl w = Some sn ->
      surface_tmpl w = Some su ->
      stl_folder w = Some folder ->
      CaseStructure.stl_files folder = [] ->
      case_structure w nSub st
      = (Raise FileNotFoundError,
         CaseStructure.mkState (Some (Text <$> tc)) (procs st))) /\
  (forall (w : Run.env) (st : Run.state),
      Run.stl_files w = [] -> Run.main w st = (Return tt, st)).
Proof.
  split.
  - intros w nSub st tc sn su folder H1 H2 H3 H4 H5.
    unfold case_structure, recreate_case, bind, modify, lift.
    rewrite H1, H2, H3, H4. cbn. now rewrite H5.
  - intros w st H. unfold Run.main. now rewrite H.
Qed.

Lemma C9_discovery_failure_witness :
  case_structure no_surface 4 (mkState (Some old_case) [])
  = (Raise FileNotFoundError, mkState (Some (Text <$> small_template)) []).
Proof.
  destruct C9_discovery_failure as [H _].
  apply (H no_surface 4%Z (mkState (Some old_case) []) small_template
           (txt "geometry") (txt "cylinder.stl") [(txt "notes.txt", [])]);
    reflexivity.
Defined.

End CaseStructureFacts.

(** * Further properties of the scripts *)

(** ** Bounds and boxes *)

Module BoundsFacts.
Import Geometry Inside Script GeometryFacts.
Local Open Scope Q_scope.

Lemma Qmin_cases (x y : Q) : Qmin x y = x \/ Qmin x y = y.
Proof. unfold Qmin, GenericMinMax.gmin. destruct (x ?= y); auto. Qed.

Lemma Qmax_cases (x y : Q) : Qmax x y = x \/ Qmax x y = y.
Proof. unfold Qmax, GenericMinMax.gmax. destruct (x ?= y); auto. Qed.

Lemma fold_min_spec (xs : list Q) (x : Q) :
  let m := fold_left Qmin xs x in
  In m (x :: xs) /\ m <= x /\ (forall y, In y xs -> m <= y).
Proof.
  revert x. induction xs as [| a xs IH]; intros x; simpl.
  - split; [now left |]. split; [apply Qle_refl | intros y []].
  - destruct (IH (Qmin x a)) as (Hin & Hle & Hall).
    split; [| split].
    + destruct Hin as [E | Hin]; [| right; now right].
      rewrite <- E. destruct (Qmin_cases x a) as [-> | ->]; [now left | right; now left].
    + eapply Qle_trans; [exact Hle | apply Q.le_min_l].
    + intros y [<- | Hy]; [| now apply Hall].
      eapply Qle_trans; [exact Hle | apply Q.le_min_r].
Qed.

Lemma fold_max_spec (xs : list Q) (x : Q) :
  let m := fold_left Qmax xs x in
  In m (x :: xs) /\ x <= m /\ (forall y, In y xs -> y <= m).
Proof.
  revert x. induction xs as [| a xs IH]; intros x; simpl.
  - split; [now left |]. split; [apply Qle_refl | intros y []].
  - destruct (IH (Qmax x a)) as (Hin & Hle & Hall).
    split; [| split].
    + destruct Hin as [E | Hin]; [| right; now right].
      rewrite <- E. destruct (Qmax_cases x a) as [-> | ->]; [now left | right; now left].
    + eapply Qle_trans; [apply Q.le_max_l | exact Hle].
    + intros y [<- | Hy]; [| now apply Hall].
      eapply Qle_trans; [apply Q.le_max_r | exact Hle].
Qed.

Lemma py_min_spec (xs : list Q) (m : Q) :
  py_min xs = Some m -> In m xs /\ (forall y, In y xs -> m <= y).
Proof.
  destruct xs as [| x xs]; [discriminate |]. intros [= <-].
  destruct (fold_min_spec xs x) as (Hin & Hle & Hall).
  split; [exact Hin |]. intros y [<- | Hy]; auto.
Qed.

Lemma py_max_spec (xs : list Q) (m : Q) :
  py_max xs = Some m -> In m xs /\ (forall y, In y xs -> y <= m).
Proof.
  destruct xs as [| x xs]; [discriminate |]. intros [= <-].
  destruct (fold_max_spec xs x) as (Hin & Hle & Hall).
  split; [exact Hin |]. intros y [<- | Hy]; auto.
Qed.

Lemma compute_bounds_none (pts : list point) :
  compute_bounds pts = None <-> pts = [].
Proof.
  split; [| now intros ->].
  destruct pts as [| p pts]; [reflexivity | discriminate].
Qed.

(** X1. [compute_bounds] fails exactly on a surface without vertex;
    otherwise its box holds every vertex, each of its six bounds is the
    coordinate of some vertex, and the lower bounds are not above the
    upper ones. *)
Theorem compute_bounds_spans (pts : list point) :
  (compute_bounds pts = None <-> pts = []) /\
  (forall b, compute_bounds pts = Some b ->
     well_formed b /\
     (forall p, In p pts -> in_box b p) /\
     In (xmin b) (map px pts) /\ In (xmax b) (map px pts) /\
     In (ymin b) (map py pts) /\ In (ymax b) (map py pts) /\
     In (zmin b) (map pz pts) /\ In (zmax b) (map pz pts)).
Proof.
  split; [apply compute_bounds_none |].
  - intros b. unfold compute_bounds.
    pose (xs := map px pts). pose (ys := map py pts). pose (zs := map pz pts).
    change (match py_min xs, py_max xs, py_min ys, py_max ys, py_min zs, py_max zs with
            | Some x0, Some x1, Some y0, Some y1, Some z0, Some z1 =>
                Some (mkBounds x0 x1 y0 y1 z0 z1)
            | _, _, _, _, _, _ => None
            end = Some b ->
            well_formed b /\ (forall p, In p pts -> in_box b p) /\
            In (xmin b) xs /\ In (xmax b) xs /\ In (ymin b) ys /\ In (ymax b) ys /\
            In (zmin b) zs /\ In (zmax b) zs).
    assert (Hxs : forall x y z, In (x, y, z) pts -> In x xs /\ In y ys /\ In z zs).
    { intros x y z Hp. repeat split; apply in_map_iff; now exists (x, y, z). }
    clearbody xs ys zs.
    destruct (py_min xs) as [x0 |] eqn:X0; [| discriminate].
    destruct (py_max xs) as [x1 |] eqn:X1; [| discriminate].
    destruct (py_min ys) as [y0 |] eqn:Y0; [| discriminate].
    destruct (py_max ys) as [y1 |] eqn:Y1; [| discriminate].
    destruct (py_min zs) as [z0 |] eqn:Z0; [| discriminate].
    destruct (py_max zs) as [z1 |] eqn:Z1; [| discriminate].
    intros [= <-]. cbn [xmin xmax ymin ymax zmin zmax].
    apply py_min_spec in X0 as [X0 Xl], Y0 as [Y0 Yl], Z0 as [Z0 Zl].
    apply py_max_spec in X1 as [X1 Xu], Y1 as [Y1 Yu], Z1 as [Z1 Zu].
    split; [| split].
    + unfold well_formed. cbn [xmin xmax ymin ymax zmin zmax]. auto.
    + intros [[x y] z] Hp. unfold in_box. cbn [xmin xmax ymin ymax zmin zmax].
      destruct (Hxs x y z Hp) as (Hx & Hy & Hz). auto 10.
    + auto 10.
Qed.

Lemma compute_bounds_spans_witness :
  in_box (mkBounds 0 1 0 2 0 3) (0, 2, 0).
Proof.
  destruct (compute_bounds_spans tetra) as [_ H].
  destruct (H (mkBounds 0 1 0 2 0 3) eq_refl) as (_ & Hall & _).
  apply Hall. right; right; now left.
Defined.

(** X2. For a box with lower bounds not above the upper ones the
    characteristic length is not negative, the domain box keeps that
    order and holds the surface box; the length is zero exactly when the
    three extents are, and then the domain box has the bounds of the
    surface box. *)
Theorem domain_box_degenerate (b : bounds) :
  well_formed b ->
  0 <= D b /\
  well_formed (domain_box b) /\
  within b (domain_box b) /\
  (D b == 0 <-> xmin b == xmax b /\ ymin b == ymax b /\ zmin b == zmax b) /\
  (D b == 0 ->
   xmin (domain_box b) == xmin b /\ xmax (domain_box b) == xmax b /\
   ymin (domain_box b) == ymin b /\ ymax (domain_box b) == ymax b /\
   zmin (domain_box b) == zmin b /\ zmax (domain_box b) == zmax b).
Proof.
  intros Hwf. assert (H0 := D_nonneg b Hwf).
  destruct Hwf as (Hx & Hy & Hz).
  destruct (D_upper_bound b) as (Ux & Uy & Uz).
  unfold x_extent, y_extent, z_extent in *.
  split; [exact H0 |]. split; [| split; [| split]].
  - unfold well_formed, domain_box. cbn [xmin xmax ymin ymax zmin zmax].
    repeat split; lra.
  - unfold within, domain_box. cbn [xmin xmax ymin ymax zmin zmax].
    repeat split; lra.
  - split.
    + intros E. repeat split; lra.
    + intros (Ex & Ey & Ez).
      destruct (D_attained b) as [E | [E | E]];
        unfold x_extent, y_extent, z_extent in E; lra.
  - intros E. unfold domain_box. cbn [xmin xmax ymin ymax zmin zmax].
    repeat split; lra.
Qed.

Lemma domain_box_degenerate_witness :
  xmax (domain_box single_point) == xmax single_point.
Proof.
  destruct (domain_box_degenerate single_point) as (_ & _ & _ & _ & H).
  - repeat split; discriminate.
  - destruct H as (_ & H & _); [reflexivity | exact H].
Defined.






End BoundsFacts.

(** ** The generated texts *)

Module TextFacts.
Import Str Format Regex Geometry Script BlockMeshDict CaseText Shapes.
Import StrFacts RegexFacts FormatFacts BlockMeshDictFacts RenameFacts CaseTextFacts.

(** X5. The generated blockMeshDict has the lines of the template, each
    rewritten on its own: as many lines, and every line that matches no
    key at its place, unchanged. An empty template gives one empty line. *)
Theorem rewrite_text_frame (dom : bounds) (dx dy dz : Q) (template : text) :
  let kvs := values dom dx dy dz in
  (splitlines template = [] -> rewrite_text kvs template = NL) /\
  (splitlines template <> [] ->
   splitlines (rewrite_text kvs template)
   = map (rewrite_line kvs) (splitlines template) /\
   length (splitlines (rewrite_text kvs template)) = length (splitlines template) /\
   forall (i : nat) (L : text),
     nth_error (splitlines template) i = Some L ->
     matching_key kvs L = None ->
     nth_error (splitlines (rewrite_text kvs template)) i = Some L).
Proof.
  intros kvs. split.
  - intros E. unfold rewrite_text. now rewrite E.
  - intros Hne.
    assert (E : splitlines (rewrite_text kvs template)
                = map (rewrite_line kvs) (splitlines template)).
    { unfold rewrite_text. apply splitlines_join.
      - destruct (splitlines template); [congruence | discriminate].
      - apply Forall_map. eapply Forall_impl; [| apply splitlines_no_break].
        intros a. apply rewrite_line_no_break, values_keys. }
    split; [exact E |]. rewrite E. split; [apply length_map |].
    intros i L Hi Hm. rewrite nth_error_map, Hi. cbn [option_map].
    now rewrite rewrite_line_matching, Hm.
Qed.

Lemma rewrite_text_frame_witness :
  nth_error
    (splitlines (rewrite_text (values (domain_box unit_cube) 1 1 1)
                   (txt "scale 1;" ++ NL ++ txt "xmin 0;")))
    0
  = Some (txt "scale 1;").
Proof.
  destruct (rewrite_text_frame (domain_box unit_cube) 1 1 1
              (txt "scale 1;" ++ NL ++ txt "xmin 0;")) as [_ H].
  destruct H as (_ & _ & H); [discriminate |].
  apply H; reflexivity.
Defined.



Lemma patch_line_twice (m n : Z) (L : text) :
  patch_line m (patch_line n L) = patch_line m L.
Proof.
  unfold patch_line at 1 3. rewrite patch_line_is_key.
  destruct (is_subdomains_line L) eqn:E; [reflexivity |].
  unfold patch_line. now rewrite E.
Qed.

(** X7. Patching the decomposition file again replaces the count set
    before: only the last count stays, and patching twice with one count
    gives what patching once gives. *)
Theorem patch_decompose_again (m n : Z) (content : text) :
  patch_decompose m (patch_decompose n content) = patch_decompose m content.
Proof.
  unfold patch_decompose at 1 3. rewrite patch_decompose_lines, map_map.
  f_equal. apply map_ext. intros L. now rewrite patch_line_twice.
Qed.

(** *** The injection loop *)

Section Loop.

Variables loc rmin rmax : text.

Local Abbreviation step := (inject_step loc rmin rmax).
Local Abbreviation run_lines := (inject_lines loc rmin rmax).

Lemma inject_lines_rewritten (f : flags) (lines : list text) :
  rewritten loc rmin rmax lines (run_lines f lines).
Proof.
  revert f. induction lines as [| L lines IH]; intros f; simpl; [constructor |].
  unfold inject_step.
  destruct (text_eqb (strip L) (txt "castellatedMeshControls"));
    [now apply rw_keep |].
  destruct (inject f && text_eqb (strip L) (txt "{")) eqn:B.
  { apply andb_prop in B as [_ B]. now apply rw_insert. }
  destruct (startswith (strip L) (txt "refinementBox")); [now apply rw_keep |].
  destruct (in_ref f && startswith (strip L) (txt "min (")) eqn:Mi.
  { apply andb_prop in Mi as [_ Mi]. now apply rw_min. }
  destruct (in_ref f && startswith (strip L) (txt "max (")) eqn:Ma.
  { apply andb_prop in Ma as [_ Ma]. now apply rw_max. }
  now apply rw_keep.
Qed.

Lemma rewritten_keeps (lines out : list text) (L : text) :
  rewritten loc rmin rmax lines out ->
  In L lines -> is_min_max L = false -> In L out.
Proof.
  induction 1 as [| K ls os _ IH | K ls os _ _ IH | K ls os HK _ IH | K ls os HK _ IH];
    intros Hin HL; [destruct Hin | | | |].
  - destruct Hin as [-> | Hin]; [now left | right; auto].
  - destruct Hin as [-> | Hin]; [now left | right; right; auto].
  - destruct Hin as [-> | Hin]; [| right; auto].
    unfold is_min_max in HL. rewrite HK in HL. discriminate.
  - destruct Hin as [-> | Hin]; [| right; auto].
    unfold is_min_max in HL. rewrite HK, orb_true_r in HL. discriminate.
Qed.

Lemma rewritten_length (lines out : list text) :
  rewritten loc rmin rmax lines out ->
  (length lines <= length out <= length lines + length (filter is_brace lines))%nat.
Proof.
  induction 1 as [| K ls os _ IH | K ls os HK _ IH | K ls os _ _ IH | K ls os _ _ IH];
    simpl; try lia.
  - destruct (is_brace K); simpl; lia.
  - rewrite HK. simpl. lia.
  - destruct (is_brace K); simpl; lia.
  - destruct (is_brace K); simpl; lia.
Qed.

(** A line that leaves the flags and goes out as it is. *)
Lemma quiet_step (f : flags) (L : text) :
  plain L -> inject f = false ->
  in_ref f = false \/ is_min_max L = false ->
  step f L = (f, [L]).
Proof.
  unfold plain, is_header, is_ref_box, is_min_max, inject_step.
  intros [-> ->] -> H. cbn [andb].
  destruct H as [-> | H]; [reflexivity |].
  apply orb_false_elim in H as [-> ->]. now rewrite !andb_false_r.
Qed.

Lemma quiet_segment (f : flags) (seg rest : list text) :
  Forall plain seg -> inject f = false ->
  in_ref f = false \/ Forall (fun L => is_min_max L = false) seg ->
  run_lines f (seg ++ rest) = seg ++ run_lines f rest.
Proof.
  induction seg as [| L seg IH]; intros Hp Hi Hr; [reflexivity |].
  inversion Hp; subst. cbn [app inject_lines].
  rewrite quiet_step; [| assumption | assumption |].
  - cbn [app]. f_equal. apply IH; [assumption | assumption |].
    destruct Hr as [Hr | Hr]; [now left | right; now inversion Hr].
  - destruct Hr as [Hr | Hr]; [now left | right; now inversion Hr].
Qed.

Lemma header_step (f : flags) (L : text) :
  is_header L = true -> step f L = (mkFlags true (in_ref f), [L]).
Proof. unfold is_header, inject_step. now intros ->. Qed.

Lemma brace_step (f : flags) (L : text) :
  is_brace L = true -> inject f = true ->
  step f L = (mkFlags false (in_ref f), [L; loc]).
Proof.
  unfold is_brace, inject_step. intros HL ->. rewrite HL. cbn [andb].
  apply text_eqb_eq in HL. rewrite HL.
  destruct (text_eqb (txt "{") (txt "castellatedMeshControls")) eqn:E; [| reflexivity].
  apply text_eqb_eq in E. discriminate E.
Qed.

Lemma ref_box_step (f : flags) (L : text) :
  is_ref_box L = true -> inject f = false ->
  step f L = (mkFlags false true, [L]).
Proof.
  unfold is_ref_box, inject_step. intros HL Hf. rewrite HL, Hf. cbn [andb].
  apply startswith_inv in HL as [s' E]. rewrite E.
  destruct (text_eqb _ (txt "castellatedMeshControls")) eqn:E1; [| reflexivity].
  apply text_eqb_eq in E1. discriminate E1.
Qed.

(** X8. Whatever the template, the injection loop drops no line and
    changes no order: a line goes out as it is, or as it is with the
    location line behind it when it is a brace, or overwritten when it
    starts with [min (] or [max (]. So every other line of the template
    is in the output, which has at least the lines of the template and
    at most one more for each brace line. *)
Theorem inject_lines_frame (f : flags) (lines : list text) :
  rewritten loc rmin rmax lines (run_lines f lines) /\
  (forall L, In L lines -> is_min_max L = false -> In L (run_lines f lines)) /\
  (length lines <= length (run_lines f lines)
   <= length lines + length (filter is_brace lines))%nat.
Proof.
  assert (H := inject_lines_rewritten f lines).
  split; [exact H |]. split.
  - intros L. now apply rewritten_keeps.
  - now apply rewritten_length.
Qed.

(** X9. On a template of the expected form (the header line, a brace
    line right after it, later a [refinementBox] line, lines of its
    inside, a [min (] line, again lines of the inside and a [max (]
    line, with plain lines around) the loop puts the location line right
    behind the first brace, overwrites the two entries and leaves all
    other lines as they are. *)
Theorem inject_expected_form
    (pre mid ins1 ins2 post : list text) (H B R Lmin Lmax : text) :
  Forall plain pre -> Forall plain mid -> Forall plain post ->
  Forall inner ins1 -> Forall inner ins2 ->
  is_header H = true -> is_brace B = true -> is_ref_box R = true ->
  startswith (strip Lmin) (txt "min (") = true ->
  startswith (strip Lmax) (txt "max (") = true ->
  run_lines (mkFlags false false)
    (pre ++ H :: B :: mid ++ R :: ins1 ++ Lmin :: ins2 ++ Lmax :: post)
  = pre ++ H :: B :: loc :: mid ++ R :: ins1 ++ rmin :: ins2 ++ rmax :: post.
Proof.
  intros Hpre Hmid Hpost Hi1 Hi2 HH HB HR Hmin Hmax.
  assert (P1 : Forall plain ins1) by (eapply Forall_impl; [| exact Hi1]; now intros L [HL _]).
  assert (P2 : Forall plain ins2) by (eapply Forall_impl; [| exact Hi2]; now intros L [HL _]).
  assert (M1 : Forall (fun L => is_min_max L = false) ins1)
    by (eapply Forall_impl; [| exact Hi1]; now intros L [_ HL]).
  assert (M2 : Forall (fun L => is_min_max L = false) ins2)
    by (eapply Forall_impl; [| exact Hi2]; now intros L [_ HL]).
  rewrite quiet_segment by (auto; now left). f_equal.
  cbn [inject_lines]. rewrite (header_step (mkFlags false false) H HH).
  cbn [app in_ref]. f_equal.
  rewrite (brace_step (mkFlags true false) B HB eq_refl).
  cbn [app in_ref]. do 2 f_equal.
  rewrite quiet_segment by (auto; now left). f_equal.
  cbn [inject_lines]. rewrite (ref_box_step (mkFlags false false) R HR eq_refl).
  cbn [app]. f_equal.
  rewrite quiet_segment by (auto; now right). f_equal.
  cbn [inject_lines].
  rewrite (starts_min_step loc rmin rmax Lmin (mkFlags false true) eq_refl Hmin).
  cbn [app]. f_equal.
  rewrite quiet_segment by (auto; now right). f_equal.
  cbn [inject_lines].
  rewrite (starts_max_step loc rmin rmax Lmax (mkFlags false true) eq_refl Hmax).
  cbn [app inject]. f_equal.
  rewrite <- (app_nil_r post) at 1. rewrite quiet_segment by (auto; now left).
  cbn [inject_lines]. apply app_nil_r.
Qed.

End Loop.

Lemma inject_lines_frame_witness :
  In (txt "  level 3;")
    (inject_lines (txt "LOC") (txt "LO") (txt "HI") (mkFlags false true)
       [txt "{"; txt "  level 3;"; txt "  min (0 0 0);"]).
Proof.
  destruct (inject_lines_frame (txt "LOC") (txt "LO") (txt "HI") (mkFlags false true)
              [txt "{"; txt "  level 3;"; txt "  min (0 0 0);"]) as (_ & H & _).
  apply H; [right; now left | reflexivity].
Defined.

Lemma inject_expected_form_witness :
  inject_lines (txt "LOC") (txt "LO") (txt "HI") (mkFlags false false)
    ([txt "FoamFile"] ++ txt "castellatedMeshControls" :: txt "{"
       :: [txt "  maxLocalCells 100;"] ++ txt "  refinementBox" :: [txt "  {"]
       ++ txt "    min (0 0 0);" :: [] ++ txt "    max (1 1 1);" :: [txt "}"])
  = [txt "FoamFile"] ++ txt "castellatedMeshControls" :: txt "{" :: txt "LOC"
       :: [txt "  maxLocalCells 100;"] ++ txt "  refinementBox" :: [txt "  {"]
       ++ txt "LO" :: [] ++ txt "HI" :: [txt "}"].
Proof.
  apply inject_expected_form; repeat constructor.
Defined.

End TextFacts.

(** ** More on the pipeline controller *)

Module StageFacts.
Import Str Format Regex Script Run Shapes Stages.
Import StrFacts RegexFacts RunFacts.

(** *** The solver named by the control dictionary *)

Lemma word_split (s : text) :
  s = take_word s ++ drop_word s /\
  forallb non_space (take_word s) = true /\ stops non_space (drop_word s).
Proof.
  induction s as [| c s (E & F & S)]; [now repeat split |]. simpl.
  destruct (non_space c) eqn:Hc; simpl.
  - rewrite Hc, F. repeat split; [now rewrite <- E | exact S].
  - repeat split. exact Hc.
Qed.

Lemma group1_pair (a b : text) : group1 [b; a ++ b] = a.
Proof. unfold group1. simpl. apply between_app. Qed.

Lemma greedy_word (k : cont) prev (s : text) mk res :
  k (last_of prev (take_word s)) (drop_word s) mk = Some res ->
  greedy non_space k prev s mk = Some res.
Proof.
  revert prev. induction s as [| c s IH]; intros prev H; [exact H |].
  simpl in *. destruct (non_space c); [| exact H].
  now rewrite (IH _ H).
Qed.

(** How the pattern matches a line of the form [application <name>]. *)
Lemma application_match (line value : text) :
  application_line line value ->
  exists rest mk,
    rmatch application_pattern line = Some (rest, mk) /\
    group1 mk = take_word value.
Proof.
  intros (lead & sp & -> & Hlead & Hsp & Hne & Hv).
  destruct value as [| c v]; [contradiction |].
  destruct (word_split v) as (Ev & _ & _).
  assert (Hw : take_word (c :: v) = c :: take_word v) by (simpl; now rewrite Hv).
  exists (drop_word v), [drop_word v; c :: v]. split.
  - unfold rmatch, application_pattern. cbn [app run].
    apply greedy_all; [assumption | reflexivity |].
    rewrite run_lit. cbn [run].
    destruct sp as [| d sp]; [congruence |].
    simpl in Hsp. apply andb_prop in Hsp as [Hd Hsp].
    cbn [app]. unfold one at 1. rewrite Hd.
    apply greedy_all; [assumption | |].
    { simpl. unfold non_space in Hv. now destruct (is_space c). }
    unfold one. rewrite Hv.
    apply greedy_word. reflexivity.
  - rewrite Hw.
    replace (c :: v) with ((c :: take_word v) ++ drop_word v)
      by (simpl; now rewrite <- Ev).
    apply group1_pair.
Qed.

(** What a match says about the line. *)
Lemma application_match_inv (line : text) (res : result) :
  rmatch application_pattern line = Some res -> exists value, application_line line value.
Proof.
  unfold rmatch, application_pattern. intros H. cbn [app run] in H.
  apply greedy_inv in H as (lead & s1 & -> & Hlead & H).
  apply run_lit_inv in H as (s2 & -> & H). cbn [run] in H.
  apply one_inv in H as (c & s3 & -> & Hc & H).
  apply greedy_inv in H as (w & s4 & -> & Hw & H).
  apply one_inv in H as (d & s5 & -> & Hd & _).
  exists (d :: s5), lead, (c :: w).
  split; [simpl; now rewrite <- ?app_assoc |].
  split; [assumption |].
  split; [simpl; now rewrite Hc |].
  split; [discriminate | exact Hd].
Qed.

Lemma application_of_skip (pre rest : list text) :
  Forall (fun l => forall v, ~ application_line l v) pre ->
  application_of (pre ++ rest) = application_of rest.
Proof.
  induction 1 as [| l pre Hl _ IH]; [reflexivity |]. cbn [app application_of].
  destruct (rmatch application_pattern l) as [[r mk] |] eqn:E; [| exact IH].
  destruct (application_match_inv _ _ E) as [v Hv]. now apply Hl in Hv.
Qed.

Lemma lstrip_semi_head (s : text) :
  match lstrip_semi s with c :: _ => c <> ";"%char | [] => True end.
Proof.
  induction s as [| c s IH]; simpl; [exact I |].
  destruct (Ascii.eqb c ";") eqn:E; [exact IH |].
  now apply Ascii.eqb_neq in E.
Qed.

(** X10. The solver is [simpleFoam] when the control dictionary is
    missing or has no line of the form [application <name>]; otherwise
    it is, on the first such line, the run of characters other than white
    space that follows the key word, without semicolons at its end. *)
Theorem select_solver_first_line :
  select_solver None = txt "simpleFoam" /\
  (forall t : text,
      Forall (fun l => forall v, ~ application_line l v) (splitlines t) ->
      select_solver (Some t) = txt "simpleFoam") /\
  (forall (t : text) (pre post : list text) (line value : text),
      splitlines t = pre ++ line :: post ->
      Forall (fun l => forall v, ~ application_line l v) pre ->
      application_line line value ->
      select_solver (Some t) = rstrip_semi (take_word value) /\
      forall s, select_solver (Some t) <> s ++ [";"%char]).
Proof.
  split; [reflexivity |]. split.
  - intros t H. unfold select_solver.
    rewrite <- (app_nil_r (splitlines t)), (application_of_skip _ [] H).
    reflexivity.
  - intros t pre post line value E Hpre Hline. unfold select_solver.
    rewrite E, (application_of_skip _ _ Hpre). cbn [application_of].
    destruct (application_match _ _ Hline) as (rest & mk & -> & ->).
    split; [reflexivity |].
    intros s Hs. unfold rstrip_semi in Hs.
    apply (f_equal (@rev ascii)) in Hs.
    rewrite rev_involutive, rev_app_distr in Hs. simpl in Hs.
    assert (Hh := lstrip_semi_head (rev (take_word value))).
    rewrite Hs in Hh. congruence.
Qed.

Lemma select_solver_first_line_witness :
  select_solver
    (Some (txt "FoamFile {}" ++ NL ++ txt "  application   pimpleFoam;; // solver"))
  = txt "pimpleFoam".
Proof.
  destruct select_solver_first_line as (_ & _ & H).
  destruct (H (txt "FoamFile {}" ++ NL ++ txt "  application   pimpleFoam;; // solver")
              [txt "FoamFile {}"] [] (txt "  application   pimpleFoam;; // solver")
              (txt "pimpleFoam;; // solver")) as [E _].
  - reflexivity.
  - constructor; [| constructor].
    intros v (lead & sp & E & Hlead & _).
    destruct lead as [| c lead]; [discriminate E |].
    injection E as <- _. discriminate Hlead.
  - exists (txt "  "), (txt "   "). repeat split. discriminate.
  - rewrite E. reflexivity.
Defined.

(** *** Stage 3 in any world *)

Lemma checked_cases (w : env) cmd lf st :
  (exit_status w (log st) cmd = 0%Z /\
   checked w cmd lf st = (Return tt, mkState (stdin st) (log st ++ [Exec cmd lf 0])))
  \/
  (exit_status w (log st) cmd <> 0%Z /\
   checked w cmd lf st
   = (Raise (CalledProcessError cmd (exit_status w (log st) cmd)),
      mkState (stdin st) (log st ++ [Exec cmd lf (exit_status w (log st) cmd)]))).
Proof.
  destruct (Z.eq_dec (exit_status w (log st) cmd) 0) as [E | E].
  - left. split; [exact E | now apply checked_ok].
  - right. split; [exact E | now apply checked_fails].
Qed.

(** What stage 3 adds to the log: the events of a refinement without
    failure when it returns, processes of the refinement only when it
    raises. *)
Lemma stage3_shape (w : env) (st : state) :
  exists suf,
    log (snd (stage3 w st)) = log st ++ suf /\
    ((exists n par, fst (stage3 w st) = Return n /\
                    suf = refine_events par n (processor_dirs w)) \/
     (exists e, fst (stage3 w st) = Raise e /\ forallb refine_exec suf = true)).
Proof.
  remember (stage3 w st) as r eqn:R.
  unfold stage3, run_and_log in R. destruct st as [[| a lines] lg].
  { subst r. exists []. cbn. rewrite app_nil_r. split; [reflexivity |].
    right. now exists EOFError. }
  unfold bind at 1 in R. unfold input at 1 in R. cbn [stdin log] in R.
  destruct (is_yes a) eqn:Ya.
  - unfold bind at 1 in R. unfold read_count in R. unfold bind at 1 in R.
    unfold input at 1 in R. cbn [stdin log] in R.
    destruct lines as [| cnt lines].
    { subst r. exists []. cbn. rewrite app_nil_r. split; [reflexivity |].
      right. now exists EOFError. }
    assert (C : exists o : outcome Z,
               (match strip cnt with
                | [] => ret 4%Z
                | s => lift (of_option ValueError (parse_int s))
                end) (mkState lines lg) = (o, mkState lines lg) /\
               (o = Raise ValueError \/ exists n, o = Return n)).
    { destruct (strip cnt) as [| c s]; [exists (Return 4%Z); eauto |].
      unfold lift. destruct (parse_int (c :: s)) as [n |]; simpl; eauto. }
    destruct C as (o & C & [-> | [n ->]]); rewrite C in R.
    { subst r. exists []. cbn. rewrite app_nil_r. split; [reflexivity |].
      right. now exists ValueError. }
    unfold bind at 1 in R.
    destruct (checked_cases w (txt "decomposePar") (Some (txt "log_decomposePar.txt"))
                (mkState lines lg)) as [[_ E1] | [_ E1]]; cbn [stdin log] in E1.
    2: { rewrite (bind_raise _ _ _ _ _ E1) in R. subst r. cbn [fst snd log].
         eexists. split; [reflexivity |]. right. eexists. split; reflexivity. }
    rewrite (bind_return _ _ _ _ _ E1) in R.
    destruct (checked_cases w (snappy_parallel_cmd n) (Some (txt "log_snappyHexMesh.txt"))
                (mkState lines (lg ++ [Exec (txt "decomposePar")
                                         (Some (txt "log_decomposePar.txt")) 0])))
      as [[_ E2] | [_ E2]]; cbn [stdin log] in E2.
    2: { rewrite (bind_raise _ _ _ _ _ E2) in R. subst r. cbn [fst snd log].
         rewrite <- app_assoc. eexists. split; [reflexivity |].
         right. eexists. split; reflexivity. }
    rewrite (bind_return _ _ _ _ _ E2) in R.
    match type of R with
    | context [bind (checked w ?c ?l) _ ?s] =>
        destruct (checked_cases w c l s) as [[_ E3] | [_ E3]]; cbn [stdin log] in E3
    end.
    2: { rewrite (bind_raise _ _ _ _ _ E3) in R. subst r. cbn [fst snd log].
         rewrite <- !app_assoc. eexists. split; [reflexivity |].
         right. eexists. split; reflexivity. }
    rewrite (bind_return _ _ _ _ _ E3), for_each_rmtree in R. subst r.
    cbn [fst snd log stdin ret]. unfold ret. cbn [fst snd log stdin].
    rewrite <- !app_assoc. eexists. split; [reflexivity |].
    left. exists n, true. split; reflexivity.
  - unfold bind at 1 in R. unfold ret at 1 in R. unfold bind at 1 in R.
    destruct (checked_cases w snappy_serial_cmd (Some (txt "log_snappyHexMesh.txt"))
                (mkState lines lg)) as [[_ E1] | [_ E1]]; rewrite E1 in R; subst r;
      cbn [fst snd log stdin]; unfold ret; cbn [fst snd log stdin].
    + eexists. split; [reflexivity |]. left. exists 1%Z, false. split; reflexivity.
    + eexists. split; [reflexivity |]. right. eexists. split; reflexivity.
Qed.

Lemma refine_exec_no_rmtree (suf : list event) (p : text) :
  forallb refine_exec suf = true -> ~ In (Rmtree p) suf.
Proof.
  intros H Hin. rewrite forallb_forall in H. apply H in Hin. discriminate Hin.
Qed.

(** X11. Whatever the processes do, stage 3 removes a processor
    directory only in a run of the stage in which [decomposePar], the
    parallel [snappyHexMesh] and [reconstructParMesh] have all exited
    with status 0, and after them: the log of the stage is then that of
    a parallel refinement without failure. *)
Theorem stage3_cleanup (w : env) (st : state) :
  exists suf,
    log (snd (stage3 w st)) = log st ++ suf /\
    forall p, In (Rmtree p) suf ->
      exists n, fst (stage3 w st) = Return n /\
                suf = refine_events true n (processor_dirs w).
Proof.
  destruct (stage3_shape w st) as (suf & E & H). exists suf. split; [exact E |].
  intros p Hin. destruct H as [(n & par & Hr & ->) | (e & _ & F)].
  - destruct par; [now exists n |].
    destruct Hin as [Hin | []]. discriminate Hin.
  - now apply refine_exec_no_rmtree with (p := p) in F.
Qed.

Lemma stage3_cleanup_witness :
  ~ In (Rmtree (txt "processor0"))
      (log (snd (stage3 no_reconstruct (start [txt "y"; txt "2"])))).
Proof.
  destruct (stage3_cleanup no_reconstruct (start [txt "y"; txt "2"]))
    as (suf & E & H).
  intros Hin. rewrite E in Hin. destruct (H _ Hin) as (n & Hn & _).
  vm_compute in Hn. discriminate Hn.
Defined.

(** X12. When the refinement is to run in parallel and the line read
    for the worker count is no number, or input has ended, the stage
    raises [ValueError], or [EOFError], and starts no process. *)
Theorem stage3_bad_count (w : env) (a : text) (lg : list event) :
  is_yes a = true ->
  (forall cnt rest,
      count_of cnt = None ->
      stage3 w (mkState (a :: cnt :: rest) lg) = (Raise ValueError, mkState rest lg)) /\
  stage3 w (mkState [a] lg) = (Raise EOFError, mkState [] lg) /\
  stage3 w (mkState [] lg) = (Raise EOFError, mkState [] lg).
Proof.
  intros Ya. split; [| split].
  - intros cnt rest Hc. unfold stage3, bind, input, read_count. cbn [stdin log].
    rewrite Ya. unfold bind, input. cbn [stdin log].
    unfold count_of in Hc. destruct (strip cnt) as [| c s]; [discriminate |].
    unfold lift. now rewrite Hc.
  - unfold stage3, bind, input, read_count. cbn [stdin log].
    rewrite Ya. reflexivity.
  - reflexivity.
Qed.

Lemma stage3_bad_count_witness :
  stage3 calm_env (mkState [txt "Y"; txt "four"; txt "n"] [])
  = (Raise ValueError, mkState [txt "n"] []).
Proof.
  destruct (stage3_bad_count calm_env (txt "Y") [] eq_refl) as [H _].
  apply H. reflexivity.
Defined.

(** *** The solver in the run *)

Lemma quiet_app (a b : list event) : quiet a -> quiet b -> quiet (a ++ b).
Proof. unfold quiet. rewrite forallb_app. now intros -> ->. Qed.

Lemma quiet_not_in (suf : list event) (e : event) :
  quiet suf -> solve_exec e = true -> ~ In e suf.
Proof.
  unfold quiet. rewrite forallb_forall. intros H He Hin.
  apply H in Hin. now rewrite He in Hin.
Qed.

Lemma refine_log_not_solve (lf : text) : refine_log lf = true -> solve_log lf = false.
Proof.
  unfold refine_log. rewrite !orb_true_iff, !text_eqb_eq.
  intros [[-> | ->] | ->]; reflexivity.
Qed.

Lemma quiet_refine (suf : list event) : forallb refine_exec suf = true -> quiet suf.
Proof.
  unfold quiet. rewrite !forallb_forall. intros H e Hin. specialize (H e Hin).
  destruct e as [cmd [lf |] code | | |]; try reflexivity.
  cbn in *. now rewrite (refine_log_not_solve _ H).
Qed.

Lemma quiet_rmtree (dirs : list text) : quiet (map Rmtree dirs).
Proof. unfold quiet. induction dirs; [reflexivity | exact IHdirs]. Qed.

Lemma quiet_opening (w : env) : quiet (opening_events w).
Proof. unfold opening_events, quiet. now destruct (case_exists w). Qed.

Lemma quiet_refine_events par n dirs : quiet (refine_events par n dirs).
Proof.
  destruct par; [| reflexivity].
  unfold refine_events. apply quiet_app; [reflexivity | apply quiet_rmtree].
Qed.

Lemma quiet_finalize (w : env) : quiet (finalize_events w).
Proof. unfold finalize_events. now destruct (foam_exists w). Qed.

(** The log of a run: the stages before the solver without failure, then
    what stage 5 adds; or no process of stage 5 at all. *)
Lemma main_shape (w : env) (st : state) :
  (exists par n tail,
      log (snd (main w st))
      = log st ++ opening_events w ++ refine_events par n (processor_dirs w)
          ++ finalize_events w ++ tail) \/
  (exists suf, log (snd (main w st)) = log st ++ suf /\ quiet suf).
Proof.
  remember (main w st) as r eqn:R. unfold main in R.
  destruct (stl_files w) as [| f fs].
  { subst r. right. exists []. cbn. now rewrite app_nil_r. }
  rewrite (bind_return _ _ _ _ _ (ensure_case_eq w st)) in R.
  unfold stage1 in R.
  match type of R with
  | context [bind (checked w ?c ?l) _ ?s] =>
      destruct (checked_cases w c l s) as [[_ E1] | [_ E1]]; cbn [stdin log] in E1
  end.
  2: { rewrite (bind_raise _ _ _ _ _ E1) in R. subst r. right. cbn [fst snd log].
       rewrite <- app_assoc. eexists. split; [reflexivity |].
       now destruct (case_exists w). }
  rewrite (bind_return _ _ _ _ _ E1) in R. unfold stage2, run_and_log in R.
  unfold bind at 1 in R.
  match type of R with
  | context [bind (checked w ?c ?l) _ ?s] =>
      destruct (checked_cases w c l s) as [[_ E2] | [_ E2]]; cbn [stdin log] in E2
  end.
  2: { rewrite (bind_raise _ _ _ _ _ E2) in R. subst r. right. cbn [fst snd log].
       rewrite <- !app_assoc. eexists. split; [reflexivity |].
       now destruct (case_exists w). }
  rewrite (bind_return _ _ _ _ _ E2) in R.
  match type of R with
  | context [checked w ?c ?l ?s] =>
      destruct (checked_cases w c l s) as [[_ E3] | [_ E3]]; cbn [stdin log] in E3
  end; rewrite E3 in R.
  2: { subst r. right. cbn [fst snd log].
       rewrite <- !app_assoc. eexists. split; [reflexivity |].
       now destruct (case_exists w). }
  match type of R with
  | context [bind (stage3 w) _ ?s] =>
      destruct (stage3_shape w s) as (suf & L3 & H3);
      destruct (stage3 w s) as [o3 st3] eqn:E3'
  end.
  cbn [fst snd log] in L3, H3.
  destruct H3 as [(n & par & -> & ->) | (e & -> & F)].
  2: { rewrite (bind_raise _ _ _ _ _ E3') in R. subst r. right. cbn [fst snd].
       rewrite L3, <- !app_assoc. eexists. split; [reflexivity |].
       apply quiet_app; [now destruct (case_exists w) |].
       do 3 (apply quiet_app; [reflexivity |]).
       apply quiet_app; [reflexivity | now apply quiet_refine]. }
  rewrite (bind_return _ _ _ _ _ E3') in R.
  rewrite (bind_return _ _ _ _ _ (stage4_eq w st3)) in R.
  destruct (sequenced_stage5 w n
              (mkState (stdin st3) (log st3 ++ finalize_events w))) as (tail & L5 & _).
  subst r. left. exists par, n, tail. rewrite L5. cbn [log]. rewrite L3.
  unfold opening_events. now rewrite <- !app_assoc.
Qed.

(** X13. Whatever the processes do and whatever is answered, a process
    of stage 5 (the decomposition for the simulation, the solver, the
    reconstruction of the results) is in the log of a run only behind
    the events of the stages before it without a failure: the case
    script, [blockMesh], [surfaceFeatureExtract] and the refinement have
    all exited with status 0, and the processor directories of a
    parallel refinement are removed. *)
Theorem solver_after_mesh (w : env) (lines : list text) (e : event) :
  In e (log (snd (main w (start lines)))) ->
  solve_exec e = true ->
  exists par n tail,
    log (snd (main w (start lines)))
    = opening_events w ++ refine_events par n (processor_dirs w)
        ++ finalize_events w ++ tail /\
    In e tail.
Proof.
  intros Hin He.
  destruct (main_shape w (start lines)) as [(par & n & tail & L) | (suf & L & Q)].
  - cbn [start log app] in L. exists par, n, tail. split; [exact L |].
    rewrite L in Hin. rewrite !in_app_iff in Hin.
    destruct Hin as [Hin | [Hin | [Hin | Hin]]]; [| | | exact Hin]; exfalso.
    + exact (quiet_not_in _ _ (quiet_opening w) He Hin).
    + exact (quiet_not_in _ _ (quiet_refine_events _ _ _) He Hin).
    + exact (quiet_not_in _ _ (quiet_finalize w) He Hin).
  - cbn [start log app] in L. rewrite L in Hin.
    now destruct (quiet_not_in _ _ Q He Hin).
Qed.

Lemma solver_after_mesh_witness :
  exists par n tail,
    log (snd (main calm_env (start [txt "n"; txt "n"])))
    = opening_events calm_env ++ refine_events par n (processor_dirs calm_env)
        ++ finalize_events calm_env ++ tail /\
    In (Exec (txt "simpleFoam") (Some (txt "log_solver.txt")) 0) tail.
Proof.
  apply (solver_after_mesh calm_env [txt "n"; txt "n"]
           (Exec (txt "simpleFoam") (Some (txt "log_solver.txt")) 0)).
  - vm_compute. do 6 right. left. reflexivity.
  - reflexivity.
Defined.

End StageFacts.

(** ** Numbers through the text *)

Module NumberFacts.
Import Str Format FormatFacts.
Local Open Scope Z_scope.


Lemma uint_value_acc (u : Decimal.uint) (acc : positive) :
  digits_value (Z.pos acc) (txt (NilEmpty.string_of_uint u))
  = Some (Z.pos (Pos.of_uint_acc u acc)).
Proof.
  revert acc. induction u; intros acc; [reflexivity | ..];
    cbn [NilEmpty.string_of_uint txt list_ascii_of_string digits_value Pos.of_uint_acc];
    change (is_digit _) with true; cbv iota;
    rewrite <- IHu; f_equal;
    match goal with
    | |- context [Z.of_nat ?n] =>
        let v := eval vm_compute in (Z.of_nat n) in change (Z.of_nat n) with v
    end; lia.
Qed.

Lemma uint_value (u : Decimal.uint) :
  digits_value 0 (txt (NilEmpty.string_of_uint u)) = Some (Z.of_N (Pos.of_uint u)).
Proof.
  induction u; [reflexivity | exact IHu | ..];
    cbn [NilEmpty.string_of_uint txt list_ascii_of_string digits_value Pos.of_uint];
    change (is_digit _) with true; cbv iota;
    cbn [Z.of_N]; rewrite <- uint_value_acc; reflexivity.
Qed.

(** The digits of a natural number read back as that number. *)
Lemma decimal_value (n : Z) : 0 <= n -> digits_value 0 (decimal n) = Some n.
Proof.
  intros Hn. unfold decimal.
  pose proof (DecimalN.Unsigned.of_to (Z.to_N n)) as E. unfold N.of_uint in E.
  apply (f_equal Z.of_N) in E. rewrite Z2N.id in E by exact Hn.
  destruct (N.to_uint (Z.to_N n)) eqn:U.
  1: { rewrite <- E. reflexivity. }
  all: unfold NilZero.string_of_uint; cbv iota; rewrite uint_value; f_equal; exact E.
Qed.



Lemma digit_not_minus (c : ascii) : is_digit c = true -> Ascii.eqb c "-" = false.
Proof.
  intros H. destruct (Ascii.eqb c "-") eqn:E; [| reflexivity].
  apply Ascii.eqb_eq in E. subst c. discriminate H.
Qed.






End NumberFacts.

(** ** The case script as a whole *)

Module CaseFacts.
Import Str Script Geometry CaseText CaseStructure Changes.
Local Open Scope script_scope.

Lemma keeps_weaken {A : Type} (P Q : string -> Prop) (m : M state A) :
  (forall p, P p -> Q p) -> keeps P m -> keeps Q m.
Proof.
  intros HPQ Hm c ps. destruct (Hm c ps) as (c' & E & F).
  exists c'. split; [exact E |]. intros p Hp. apply F. intros HP. apply Hp, HPQ, HP.
Qed.

Lemma keeps_unchanged {A : Type} (P : string -> Prop) (m : M state A) :
  (forall st, snd (m st) = st) -> keeps P m.
Proof. intros H c ps. exists c. rewrite H. split; [reflexivity | auto]. Qed.

Lemma keeps_ret {A : Type} P (a : A) : keeps P (ret a).
Proof. now apply keeps_unchanged. Qed.

Lemma keeps_raise {A : Type} P e : keeps P (raise (A := A) e).
Proof. now apply keeps_unchanged. Qed.

Lemma keeps_lift {A : Type} P (o : outcome A) : keeps P (lift o).
Proof. now apply keeps_unchanged. Qed.

Lemma keeps_read P path : keeps P (read_case path).
Proof.
  apply keeps_unchanged. intros st. unfold read_case.
  destruct (case_dir st) as [c |]; [| reflexivity].
  destruct (c !! path) as [[t | pts] |]; reflexivity.
Qed.

Lemma keeps_isfile P path : keeps P (isfile_case path).
Proof.
  apply keeps_unchanged. intros st. unfold isfile_case.
  destruct (case_dir st); reflexivity.
Qed.

Lemma keeps_write (P : string -> Prop) path v : P path -> keeps P (write_case path v).
Proof.
  intros HP c ps. exists (<[path := v]> c). split; [reflexivity |].
  intros p Hp. apply lookup_insert_ne. intros ->. exact (Hp HP).
Qed.

Lemma keeps_procs P (f : list text -> list text) :
  keeps P (modify (fun st => mkState (case_dir st) (f (procs st)))).
Proof. intros c ps. exists c. split; [reflexivity | auto]. Qed.

Lemma keeps_bind {A B : Type} P (m : M state A) (f : A -> M state B) :
  keeps P m -> (forall a, keeps P (f a)) -> keeps P (bind m f).
Proof.
  intros Hm Hf c ps. destruct (Hm c ps) as (c1 & E1 & F1). unfold bind.
  destruct (m (mkState (Some c) ps)) as [[a | e] [cd1 ps1]]; cbn in E1; subst cd1.
  - destruct (Hf a c1 ps1) as (c2 & E2 & F2). exists c2. split; [exact E2 |].
    intros p Hp. now rewrite F2, F1.
  - exists c1. split; [reflexivity | exact F1].
Qed.

Lemma keeps_for_each {A : Type} P (xs : list A) (body : A -> M state unit) :
  (forall x, keeps P (body x)) -> keeps P (for_each xs body).
Proof.
  intros H. induction xs as [| x xs IH]; [apply keeps_ret |].
  cbn. apply keeps_bind; [apply H | intros _; exact IH].
Qed.

Lemma keeps_if {A : Type} P (b : bool) (m1 m2 : M state A) :
  keeps P m1 -> keeps P m2 -> keeps P (if b then m1 else m2).
Proof. now destruct b. Qed.

Lemma generated_field (f : string) :
  In f ["0/U"; "0/p"; "0/nuTilda"; "0/nut"]%string -> generated f.
Proof. intros H. left. cbn in *. tauto. Qed.

Lemma keeps_rename_fields name : keeps generated (rename_fields name).
Proof.
  unfold rename_fields. 
  assert (G : forall fs, (forall f, In f fs -> generated f) ->
              keeps generated (for_each fs (fun f0 =>
                present <- isfile_case f0;;
                if present then
                  t <- read_case f0;;
                  write_case f0 (Text (rename_patches name t))
                else ret tt))).
  { induction fs as [| f fs IH]; intros Hfs; [apply keeps_ret |].
    cbn [for_each]. apply keeps_bind.
    - apply keeps_bind; [apply keeps_isfile |]. intros b. apply keeps_if.
      + apply keeps_bind; [apply keeps_read |]. intros t. apply keeps_write, Hfs. now left.
      + apply keeps_ret.
    - intros _. apply IH. intros f' Hf'. apply Hfs. now right. }
  apply G. exact generated_field.
Qed.

Lemma keeps_body (w : env) nSub sn su fname pts :
  keeps generated
    (rename_fields (splitext_root fname);;
     patch_decompose_file nSub;;
     copy_stl fname pts;;
     generate_block_mesh w pts;;
     prepare_snappy sn (splitext_root fname) fname pts;;
     prepare_surface su fname).
Proof.
  apply keeps_bind; [apply keeps_rename_fields | intros _].
  apply keeps_bind; [| intros _].
  { unfold patch_decompose_file. apply keeps_bind; [apply keeps_read | intros t].
    apply keeps_write. left. cbn. tauto. }
  apply keeps_bind; [| intros _].
  { apply keeps_write. right. now exists fname. }
  apply keeps_bind; [| intros _].
  { unfold generate_block_mesh. apply keeps_bind; [apply (keeps_procs _ (fun ps => ps ++ [block_cmd])) | intros _].
    destruct (template_case w) as [tc |]; [| apply keeps_raise].
    destruct (tc !! "system/blockMeshDict"%string) as [t |]; [| apply keeps_raise].
    destruct (BlockMeshDict.main _ _ _); [| apply keeps_raise].
    apply keeps_write. left. cbn. tauto. }
  apply keeps_bind; [| intros _].
  { unfold prepare_snappy. apply keeps_bind; [apply keeps_read | intros data].
    apply keeps_bind; [apply keeps_lift | intros blk].
    apply keeps_bind; [apply keeps_lift | intros stl].
    apply keeps_write. left. cbn. tauto. }
  apply keeps_write. left. cbn. tauto.
Qed.

(** X15. However the case script ends, when [templateCase] is there the
    case directory holds, apart from the files the script generates
    (the four field files, [decomposeParDict], [blockMeshDict],
    [snappyHexMeshDict], [surfaceFeatureExtractDict] and the surface
    under [constant/triSurface]), exactly the files of the template:
    nothing of an earlier case is left. Without [templateCase] the
    script raises [FileNotFoundError] and leaves no case directory. *)
Theorem case_is_template_elsewhere (w : env) (nSub : Z) (st : state) :
  (forall tc, template_case w = Some tc ->
     exists c,
       case_dir (snd (case_structure w nSub st)) = Some c /\
       forall p, ~ generated p -> c !! p = Text <$> tc !! p) /\
  (template_case w = None ->
     case_structure w nSub st = (Raise FileNotFoundError, mkState None (procs st))).
Proof.
  split.
  - intros tc Htc. unfold case_structure, recreate_case.
    unfold bind at 1. unfold bind at 1. unfold modify at 1.
    unfold bind at 1. unfold lift at 1. rewrite Htc. cbn [of_option snd procs].
    unfold modify at 1. cbn [procs].
    assert (K : keeps generated
      (snappy_template <- lift (of_option FileNotFoundError (snappy_tmpl w));;
       surface_template <- lift (of_option FileNotFoundError (surface_tmpl w));;
       folder <- lift (of_option FileNotFoundError (stl_folder w));;
       match stl_files folder with
       | [] => raise FileNotFoundError
       | (fname, pts) :: _ =>
           let stl_name := splitext_root fname in
           rename_fields stl_name;;
           patch_decompose_file nSub;;
           copy_stl fname pts;;
           generate_block_mesh w pts;;
           prepare_snappy snappy_template stl_name fname pts;;
           prepare_surface surface_template fname
       end)).
    { apply keeps_bind; [apply keeps_lift | intros sn].
      apply keeps_bind; [apply keeps_lift | intros su].
      apply keeps_bind; [apply keeps_lift | intros folder].
      destruct (stl_files folder) as [| [fname pts] rest]; [apply keeps_raise |].
      apply keeps_body. }
    destruct (K (Text <$> tc) (procs st)) as (c & E & F).
    exists c. split; [exact E |]. intros p Hp. rewrite (F p Hp). apply lookup_fmap.
  - intros Htc. unfold case_structure, recreate_case, bind, modify, lift.
    rewrite Htc. reflexivity.
Qed.

Lemma case_is_template_elsewhere_witness :
  exists c,
    case_dir (snd (case_structure empty_surface 4 (mkState (Some old_case) []))) = Some c /\
    c !! "log_solver.txt"%string = None.
Proof.
  destruct (case_is_template_elsewhere empty_surface 4 (mkState (Some old_case) []))
    as [H _].
  destruct (H small_template eq_refl) as (c & E & F).
  exists c. split; [exact E |]. rewrite F; [reflexivity |].
  intros [G | [fname G]].
  - cbn in G. repeat (destruct G as [G | G]; [discriminate G |]). exact G.
  - discriminate G.
Defined.

Lemma bind_ret_eq {S A B : Type} (m : M S A) (f : A -> M S B) s a s' :
  m s = (Return a, s') -> bind m f s = f a s'.
Proof. unfold bind. now intros ->. Qed.

Lemma bind_raise_eq {S A B : Type} (m : M S A) (f : A -> M S B) s e s' :
  m s = (Raise e, s') -> bind m f s = (Raise e, s').
Proof. unfold bind. now intros ->. Qed.

(** One round of the renaming loop on a tree of texts. *)
Lemma rename_step (name : text) (f0 : string) (tc : gmap string text) ps :
  (present <- isfile_case f0;;
   if present then
     t <- read_case f0;;
     write_case f0 (Text (rename_patches name t))
   else ret tt) (mkState (Some (Text <$> tc)) ps)
  = (Return tt, mkState (Some (Text <$> alter (rename_patches name) f0 tc)) ps).
Proof.
  unfold bind, isfile_case, read_case, write_case, ret. cbn [case_dir procs].
  rewrite lookup_fmap. destruct (tc !! f0) as [t |] eqn:E; cbn.
  - rewrite lookup_fmap, E. cbn.
    do 3 f_equal. apply map_eq. intros p. destruct (decide (p = f0)) as [-> | N].
    + now rewrite lookup_insert_eq, lookup_fmap, lookup_alter_eq, E.
    + now rewrite lookup_insert_ne, !lookup_fmap, lookup_alter_ne by congruence.
  -    do 3 f_equal. apply map_eq. intros p. destruct (decide (p = f0)) as [-> | N].
    + now rewrite !lookup_fmap, lookup_alter_eq, E.
    + now rewrite !lookup_fmap, lookup_alter_ne by congruence.
Qed.

Lemma rename_fields_run (name : text) (tc : gmap string text) ps :
  rename_fields name (mkState (Some (Text <$> tc)) ps)
  = (Return tt,
     mkState (Some (Text <$> alter (rename_patches name) "0/nut"%string
                      (alter (rename_patches name) "0/nuTilda"%string
                         (alter (rename_patches name) "0/p"%string
                            (alter (rename_patches name) "0/U"%string tc))))) ps).
Proof.
  unfold rename_fields. cbn [for_each].
  do 4 (erewrite bind_ret_eq by apply rename_step). reflexivity.
Qed.

Lemma patch_run (nSub : Z) (c : tree) (d : text) ps :
  c !! "system/decomposeParDict"%string = Some (Text d) ->
  patch_decompose_file nSub (mkState (Some c) ps)
  = (Return tt,
     mkState (Some (<["system/decomposeParDict"%string
                       := Text (patch_decompose nSub d)]> c)) ps).
Proof.
  intros H. unfold patch_decompose_file, bind, read_case, write_case. cbn. now rewrite H.
Qed.





Lemma patch_fail (nSub : Z) (c : tree) ps :
  c !! "system/decomposeParDict"%string = None ->
  patch_decompose_file nSub (mkState (Some c) ps)
  = (Raise FileNotFoundError, mkState (Some c) ps).
Proof.
  intros H. unfold patch_decompose_file, bind, read_case. cbn. now rewrite H.
Qed.

(** X17. The case script returns only if [templateCase], the two
    templates under [mesh] and the input folder are there, the folder
    lists a surface file, [templateCase] holds a decomposition
    dictionary and a block mesh template, the generator returns a
    dictionary for the first surface file of the listing, and the
    bounds can be read back from that dictionary. *)
Theorem case_structure_needs (w : env) (nSub : Z) (st : state) :
  fst (case_structure w nSub st) = Return tt ->
  exists tc sn su folder rest fname pts d template out stl blk,
    template_case w = Some tc /\
    snappy_tmpl w = Some sn /\
    surface_tmpl w = Some su /\
    stl_folder w = Some folder /\
    stl_files folder = (fname, pts) :: rest /\
    tc !! "system/decomposeParDict"%string = Some d /\
    tc !! "system/blockMeshDict"%string = Some template /\
    BlockMeshDict.main template pts [0.35; 0.35; 1]%Q = Return out /\
    read_block_bounds out = Return blk /\
    compute_bounds pts = Some stl.
Proof.
  intros H. unfold case_structure in H.
  destruct (template_case w) as [tc |] eqn:Htc.
  2: { unfold recreate_case, bind, modify, lift in H. rewrite Htc in H. discriminate H. }
  assert (E0 : recreate_case w st = (Return tt, mkState (Some (Text <$> tc)) (procs st))).
  { unfold recreate_case, bind, modify, lift. now rewrite Htc. }
  rewrite (bind_ret_eq _ _ _ _ _ E0) in H.
  unfold bind at 1 in H. unfold lift at 1 in H.
  destruct (snappy_tmpl w) as [sn |] eqn:Hsn; [| discriminate H]. cbn [of_option] in H.
  unfold bind at 1 in H. unfold lift at 1 in H.
  destruct (surface_tmpl w) as [su |] eqn:Hsu; [| discriminate H]. cbn [of_option] in H.
  unfold bind at 1 in H. unfold lift at 1 in H.
  destruct (stl_folder w) as [folder |] eqn:Hfo; [| discriminate H]. cbn [of_option] in H.
  destruct (stl_files folder) as [| [fname pts] rest] eqn:Hfiles; [discriminate H |].
  cbv zeta in H.
  rewrite (bind_ret_eq _ _ _ _ _ (rename_fields_run _ _ _)) in H.
  set (rn := rename_patches (splitext_root fname)) in H.
  set (c1 := Text <$> alter rn "0/nut"%string
                    (alter rn "0/nuTilda"%string
                       (alter rn "0/p"%string (alter rn "0/U"%string tc)))) in H.
  assert (L1 : c1 !! "system/decomposeParDict"%string
               = Text <$> tc !! "system/decomposeParDict"%string).
  { unfold c1. now rewrite lookup_fmap, !lookup_alter_ne by discriminate. }
  destruct (tc !! "system/decomposeParDict"%string) as [d |] eqn:Hd.
  2: { rewrite (bind_raise_eq _ _ _ _ _ (patch_fail nSub c1 _ L1)) in H. discriminate H. }
  rewrite (bind_ret_eq _ _ _ _ _ (patch_run nSub c1 d _ L1)) in H.
  unfold copy_stl in H. unfold bind at 1 in H. unfold write_case at 1 in H.
  cbn [case_dir procs] in H.
  unfold generate_block_mesh in H. unfold bind at 1 in H. unfold bind at 1 in H.
  unfold modify at 1 in H. cbn [case_dir procs] in H. rewrite Htc in H.
  destruct (tc !! "system/blockMeshDict"%string) as [template |] eqn:Hb;
    [| discriminate H].
  destruct (BlockMeshDict.main template pts [0.35; 0.35; 1]%Q) as [out | e] eqn:Hmain;
    [| discriminate H].
  unfold write_case at 1 in H. cbn [case_dir procs] in H.
  unfold prepare_snappy in H. unfold bind at 1 in H. unfold bind at 1 in H.
  unfold read_case at 1 in H. cbn [case_dir procs] in H.
  rewrite lookup_insert_eq in H.
  unfold bind at 1 in H. unfold lift at 1 in H.
  destruct (read_block_bounds out) as [blk | e] eqn:Hblk; [| discriminate H].
  unfold bind at 1 in H. unfold lift at 1 in H.
  destruct (compute_bounds pts) as [stl |] eqn:Hstl; [| discriminate H].
  exists tc, sn, su, folder, rest, fname, pts, d, template, out, stl, blk.
  repeat split; assumption || reflexivity.
Qed.

Lemma case_structure_needs_witness :
  exists tc d,
    template_case full_env = Some tc /\
    tc !! "system/decomposeParDict"%string = Some d.
Proof.
  destruct (case_structure_needs full_env 4 (mkState None []))
    as (tc & sn & su & folder & rest & fname & pts & d & template & out & stl & blk
        & H1 & _ & _ & _ & _ & H6 & _).
  - vm_compute. reflexivity.
  - exists tc, d. split; assumption.
Defined.

End CaseFacts.

(** ** File names *)

Module NameFacts.
Import Str CaseText StrFacts.

Lemma lower_char_dot (c : ascii) : lower_char c = "."%char -> c = "."%char.
Proof.
  destruct c as [[] [] [] [] [] [] [] []]; intros H; vm_compute in H;
    try discriminate H; reflexivity.
Qed.

Lemma lower_char_letter (c l : ascii) :
  lower_char c = l -> Ascii.eqb l "." = false -> Ascii.eqb c "." = false.
Proof.
  intros H Hl. destruct (Ascii.eqb c ".") eqn:E; [| reflexivity].
  apply Ascii.eqb_eq in E. subst c. cbn in H. subst l. discriminate Hl.
Qed.

Lemma forallb_rev {A : Type} (p : A -> bool) (l : list A) :
  forallb p (rev l) = forallb p l.
Proof.
  induction l as [| a l IH]; [reflexivity |].
  cbn. rewrite forallb_app, IH. cbn. rewrite andb_true_r. apply andb_comm.
Qed.

(** X18. A file of the input folder counts as a surface exactly when its
    name ends with [.stl] in any mix of upper and lower case; the name
    given to the patches is then the file name without these four
    characters, unless nothing but dots comes before them: then it is
    the whole file name. *)
Theorem stl_name_root (fname : text) :
  (is_stl_name fname = true <->
   exists root ext, fname = root ++ ext /\ lower ext = txt ".stl") /\
  (forall root ext,
      fname = root ++ ext -> lower ext = txt ".stl" ->
      splitext_root fname = if forallb (Ascii.eqb ".") root then fname else root).
Proof.
  split; [split |].
  - intros H. unfold is_stl_name in H. apply startswith_inv in H as [r Hr].
    apply (f_equal (@rev ascii)) in Hr. rewrite rev_involutive, rev_app_distr in Hr.
    rewrite rev_involutive in Hr. unfold lower in Hr.
    apply map_eq_app in Hr as (root & ext & -> & _ & He).
    now exists root, ext.
  - intros (root & ext & -> & He). unfold is_stl_name, lower.
    rewrite map_app, rev_app_distr. fold (lower ext). rewrite He.
    apply startswith_app.
  - intros root ext -> He.
    destruct ext as [| c1 [| c2 [| c3 [| c4 [| c5 ext]]]]]; try discriminate He.
    cbn in He. injection He as H1 H2 H3 H4.
    apply lower_char_dot in H1. subst c1.
    pose proof (lower_char_letter _ _ H2 eq_refl) as N2.
    pose proof (lower_char_letter _ _ H3 eq_refl) as N3.
    pose proof (lower_char_letter _ _ H4 eq_refl) as N4.
    unfold splitext_root. rewrite rev_app_distr. cbn [rev app after_last_dot_rev].
    rewrite N4, N3, N2. change (Ascii.eqb "." ".") with true. cbv iota.
    now rewrite forallb_rev, rev_involutive.
Qed.

Lemma stl_name_root_witness :
  is_stl_name (txt "Wing.v2.STL") = true /\
  splitext_root (txt "Wing.v2.STL") = txt "Wing.v2" /\
  splitext_root (txt ".stl") = txt ".stl".
Proof.
  destruct (stl_name_root (txt "Wing.v2.STL")) as [[_ H] S].
  destruct (stl_name_root (txt ".stl")) as [_ S'].
  split; [| split].
  - apply H. now exists (txt "Wing.v2"), (txt ".STL").
  - apply (S (txt "Wing.v2") (txt ".STL")); reflexivity.
  - apply (S' [] (txt ".stl")); reflexivity.
Defined.

End NameFacts.

(** ** Reading the bounds *)

Module ReadingFacts.
Import Str Format Regex Geometry Script CaseText Reading StrFacts RegexFacts.

Lemma search_from_inv (r : regex) prev (s : text) res :
  search_from r prev s = Some res ->
  exists pre s' prev', s = pre ++ s' /\ run r prev' s' [] = Some res.
Proof.
  revert prev. induction s as [| c s IH]; intros prev H; cbn [search_from] in H.
  - destruct (run r prev [] []) eqn:R; [| discriminate]. injection H as <-.
    now exists [], [], prev.
  - destruct (run r prev (c :: s) []) eqn:R.
    + injection H as <-. now exists [], (c :: s), prev.
    + destruct (IH _ H) as (pre & s' & prev' & -> & R').
      now exists (c :: pre), s', prev'.
Qed.

Lemma plus_inv p (k : cont) prev s mk res :
  one p (greedy p k) prev s mk = Some res ->
  exists w s2 prev', s = w ++ s2 /\ w <> [] /\ forallb p w = true /\
                     k prev' s2 mk = Some res.
Proof.
  intros H. apply one_inv in H as (c & s' & -> & Hc & H).
  apply greedy_inv in H as (w & s2 & -> & Hw & H).
  exists (c :: w), s2, (last_of (Some c) w). cbn. rewrite Hc, Hw.
  repeat split; try assumption. discriminate.
Qed.

Lemma semi_inv (k : cont) prev s mk res :
  one (Ascii.eqb ";") k prev s mk = Some res ->
  exists s', s = ";"%char :: s' /\ k (Some ";"%char) s' mk = Some res.
Proof.
  intros H. apply one_inv in H as (c & s' & -> & Hc & H).
  apply Ascii.eqb_eq in Hc. subst c. now exists s'.
Qed.

(** What a match of the pattern of [read_block_bounds] tells. *)
Lemma search_bound (lo hi data rest : text) (mk : list text) :
  search (bound_pattern lo hi) data = Some (rest, mk) ->
  stands_in data lo hi (group1 mk) (group2 mk) /\
  group1 mk <> [] /\ forallb num_char (group1 mk) = true /\
  group2 mk <> [] /\ forallb num_char (group2 mk) = true.
Proof.
  intros H. apply search_from_inv in H as (pre & s & prev & -> & H).
  unfold bound_pattern in H.
  apply run_lit_inv in H as (s1 & -> & H). cbn [app run] in H.
  apply plus_inv in H as (ws1 & s2 & p2 & -> & N1 & W1 & H).
  apply plus_inv in H as (n1 & s3 & p3 & -> & M1 & C1 & H).
  apply semi_inv in H as (s4 & -> & H).
  apply greedy_inv in H as (mid & s5 & -> & _ & H).
  apply run_lit_inv in H as (s6 & -> & H). cbn [app run] in H.
  apply plus_inv in H as (ws2 & s7 & p7 & -> & N2 & W2 & H).
  apply plus_inv in H as (n2 & s8 & p8 & -> & M2 & C2 & H).
  apply semi_inv in H as (post & -> & H). injection H as <- <-.
  unfold group1, group2. cbn [rev app]. rewrite !between_app.
  repeat split; try assumption.
  exists pre, ws1, mid, ws2, post. repeat split; assumption.
Qed.

Lemma two_floats_inv (m : option result) (a b : Q) :
  two_floats m = Return (a, b) ->
  exists rest mk, m = Some (rest, mk) /\
                  parse_float (group1 mk) = Some a /\ parse_float (group2 mk) = Some b.
Proof.
  unfold two_floats. destruct m as [[rest mk] |]; [| discriminate].
  destruct (parse_float (group1 mk)) as [x |] eqn:P1; [| discriminate].
  destruct (parse_float (group2 mk)) as [y |] eqn:P2; [| discriminate].
  intros H. injection H as <- <-. exists rest, mk. now rewrite P1, P2.
Qed.

(** X19. The bounds that [read_block_bounds] returns stand in the file:
    for each axis the file holds the lower key, white space, a number
    and a semicolon and, behind them, the upper key, white space, a
    number and a semicolon, and the two numbers are the bounds
    returned for the axis. *)
Theorem read_block_bounds_sound (data : text) (b : bounds) :
  read_block_bounds data = Return b ->
  exists x0 x1 y0 y1 z0 z1,
    (stands_in data (txt "xmin") (txt "xmax") x0 x1 /\
     parse_float x0 = Some (xmin b) /\ parse_float x1 = Some (xmax b)) /\
    (stands_in data (txt "ymin") (txt "ymax") y0 y1 /\
     parse_float y0 = Some (ymin b) /\ parse_float y1 = Some (ymax b)) /\
    (stands_in data (txt "zmin") (txt "zmax") z0 z1 /\
     parse_float z0 = Some (zmin b) /\ parse_float z1 = Some (zmax b)).
Proof.
  unfold read_block_bounds. intros H.
  destruct (two_floats (search (bound_pattern (txt "xmin") (txt "xmax")) data))
    as [[x0 x1] | e] eqn:X; [| discriminate H].
  destruct (two_floats (search (bound_pattern (txt "ymin") (txt "ymax")) data))
    as [[y0 y1] | e] eqn:Y; [| discriminate H].
  destruct (two_floats (search (bound_pattern (txt "zmin") (txt "zmax")) data))
    as [[z0 z1] | e] eqn:Z; [| discriminate H].
  injection H as <-. cbn [xmin xmax ymin ymax zmin zmax].
  apply two_floats_inv in X as (rx & mx & Sx & Px0 & Px1).
  apply two_floats_inv in Y as (ry & my & Sy & Py0 & Py1).
  apply two_floats_inv in Z as (rz & mz & Sz & Pz0 & Pz1).
  apply search_bound in Sx as [Sx _], Sy as [Sy _], Sz as [Sz _].
  exists (group1 mx), (group2 mx), (group1 my), (group2 my), (group1 mz), (group2 mz).
  repeat split; assumption.
Qed.

Lemma read_block_bounds_sound_witness :
  exists b x0 x1,
    read_block_bounds (txt "xmin -9.000000;" ++ NL ++ txt "xmax 46.000000;" ++ NL ++
                       txt "ymin -9.000000;" ++ NL ++ txt "ymax 11.000000;" ++ NL ++
                       txt "zmin -9.000000;" ++ NL ++ txt "zmax 12.000000;" ++ NL)
    = Return b /\
    stands_in (txt "xmin -9.000000;" ++ NL ++ txt "xmax 46.000000;" ++ NL ++
               txt "ymin -9.000000;" ++ NL ++ txt "ymax 11.000000;" ++ NL ++
               txt "zmin -9.000000;" ++ NL ++ txt "zmax 12.000000;" ++ NL)
      (txt "xmin") (txt "xmax") x0 x1 /\
    parse_float x0 = Some (xmin b) /\ parse_float x1 = Some (xmax b).
Proof.
  destruct (read_block_bounds
              (txt "xmin -9.000000;" ++ NL ++ txt "xmax 46.000000;" ++ NL ++
               txt "ymin -9.000000;" ++ NL ++ txt "ymax 11.000000;" ++ NL ++
               txt "zmin -9.000000;" ++ NL ++ txt "zmax 12.000000;" ++ NL))
    as [b | e] eqn:E; [| vm_compute in E; discriminate E].
  destruct (read_block_bounds_sound _ b E) as (x0 & x1 & _ & _ & _ & _ & Hx & _).
  exists b, x0, x1. split; [reflexivity | exact Hx].
Defined.

End ReadingFacts.

(** ** Plain replacement *)

Module ReplaceFacts.
Import Str CaseText Occurrences StrFacts.

Lemma replace_skip (old new a b : text) :
  replace_from old new (a ++ b) (length a) = replace_from old new b 0.
Proof.
  induction a as [| c a IH]; [reflexivity | exact IH].
Qed.

Lemma replace_match (old new b : text) :
  old <> [] ->
  replace_from old new (old ++ b) 0 = new ++ replace_from old new b 0.
Proof.
  intros Ho. destruct old as [| c o]; [congruence |].
  change ((c :: o) ++ b) with (c :: (o ++ b)). cbn [replace_from].
  change (c :: (o ++ b)) with ((c :: o) ++ b). rewrite startswith_app.
  cbn [length]. rewrite Nat.sub_1_r. cbn [Nat.pred]. now rewrite replace_skip.
Qed.

Lemma replace_copy (old new a rest : text) :
  leftmost old a rest = true ->
  replace_from old new (a ++ rest) 0 = a ++ replace_from old new rest 0.
Proof.
  induction a as [| c a IH]; intros H; [reflexivity |].
  cbn [leftmost] in H. apply andb_true_iff in H as [H1 H2].
  apply negb_true_iff in H1.
  cbn [app replace_from]. change (c :: (a ++ rest)) with ((c :: a) ++ rest).
  rewrite H1. f_equal. now apply IH.
Qed.

Lemma absent_leftmost (old s : text) : occurs old s = false -> leftmost old s [] = true.
Proof.
  induction s as [| c s IH]; intros H; [reflexivity |].
  cbn [occurs] in H. apply orb_false_iff in H as [H1 H2].
  cbn [leftmost]. rewrite app_nil_r, H1. now apply IH.
Qed.

(** An occurrence found by [occurs] is one, and the other way round. *)
Lemma occurs_iff (old s : text) :
  old <> [] -> (occurs old s = true <-> exists a b, s = a ++ old ++ b).
Proof.
  intros Ho. split.
  - induction s as [| c s IH]; cbn [occurs]; intros H.
    + rewrite orb_false_r in H. apply startswith_inv in H as [r ->]. now exists [], r.
    + apply orb_true_iff in H as [H | H].
      * apply startswith_inv in H as [r ->]. now exists [], r.
      * destruct (IH H) as (a & b & ->). now exists (c :: a), b.
  - intros (a & b & ->). induction a as [| c a IH].
    + cbn [app]. pose proof (startswith_app old b) as S.
      destruct (old ++ b); cbn [occurs]; now rewrite S.
    + cbn [app occurs]. rewrite IH. apply orb_true_r.
Qed.

(** [str.replace]: a text without occurrence stays; the leftmost
    occurrence is replaced and the search goes on behind it. *)
Lemma replace_first_occurrence (old new s : text) :
  old <> [] ->
  (occurs old s = false -> replace old new s = s) /\
  (forall a b, s = a ++ old ++ b -> leftmost old a (old ++ b) = true ->
               replace old new s = a ++ new ++ replace old new b).
Proof.
  intros Ho. unfold replace. split.
  - intros H. rewrite <- (app_nil_r s) at 1.
    rewrite (replace_copy old new s [] (absent_leftmost _ _ H)).
    cbn. apply app_nil_r.
  - intros a b -> H. rewrite (replace_copy old new a _ H).
    now rewrite (replace_match old new b Ho).
Qed.

(** X20. The feature dictionary is the template with the occurrences of
    [cylinder.stl] replaced by the name of the surface file, from the
    left and without overlap: a template in which [cylinder.stl] stands
    nowhere is written as it is, and behind the leftmost occurrence the
    rest of the template is treated in the same way. The comparison
    minds the case of the letters. *)
Theorem surface_dict_occurrences (surface_template fname : text) :
  ((forall a b, surface_template <> a ++ txt "cylinder.stl" ++ b) ->
   surface_dict surface_template fname = surface_template) /\
  (forall a b,
      surface_template = a ++ txt "cylinder.stl" ++ b ->
      leftmost (txt "cylinder.stl") a (txt "cylinder.stl" ++ b) = true ->
      surface_dict surface_template fname = a ++ fname ++ surface_dict b fname).
Proof.
  unfold surface_dict.
  destruct (replace_first_occurrence (txt "cylinder.stl") fname surface_template) as [A B];
    [discriminate |].
  split; [| exact B].
  intros H. apply A. destruct (occurs (txt "cylinder.stl") surface_template) eqn:O;
    [| reflexivity].
  apply occurs_iff in O as (a & b & E); [| discriminate]. now destruct (H a b).
Qed.

Lemma surface_dict_occurrences_witness :
  surface_dict (txt "file cylinder.stl; edge cylinder.stl;") (txt "wing.stl")
  = txt "file wing.stl; edge " ++ txt "wing.stl" ++ surface_dict (txt ";") (txt "wing.stl").
Proof.
  destruct (surface_dict_occurrences (txt "file cylinder.stl; edge cylinder.stl;")
              (txt "wing.stl")) as [_ H].
  rewrite (H (txt "file ") (txt "; edge cylinder.stl;") eq_refl eq_refl).
  destruct (surface_dict_occurrences (txt "; edge cylinder.stl;") (txt "wing.stl"))
    as [_ H'].
  rewrite (H' (txt "; edge ") (txt ";") eq_refl eq_refl). reflexivity.
Defined.

(** X21. The name that takes the place of [cylinder.eMesh] in the
    refinement dictionary comes from the name of the surface file by
    [str.replace], which minds the case of the letters: a name that
    ends in [.stl] with no [.stl] starting before gets the ending
    [.eMesh], while a name in which [.stl] stands nowhere, as one with
    the ending in upper case, which the script accepts as a surface
    file, stays as it is. *)
Theorem emesh_name (fname : text) :
  (forall root,
      fname = root ++ txt ".stl" ->
      leftmost (txt ".stl") root (txt ".stl") = true ->
      replace (txt ".stl") (txt ".eMesh") fname = root ++ txt ".eMesh") /\
  ((forall a b, fname <> a ++ txt ".stl" ++ b) ->
   replace (txt ".stl") (txt ".eMesh") fname = fname).
Proof.
  destruct (replace_first_occurrence (txt ".stl") (txt ".eMesh") fname) as [A B];
    [discriminate |].
  split.
  - intros root E L. rewrite (B root [] E L). reflexivity.
  - intros H. apply A. destruct (occurs (txt ".stl") fname) eqn:O; [| reflexivity].
    apply occurs_iff in O as (a & b & E); [| discriminate]. now destruct (H a b).
Qed.

Lemma emesh_name_witness :
  replace (txt ".stl") (txt ".eMesh") (txt "wing.stl") = txt "wing.eMesh" /\
  is_stl_name (txt "wing.STL") = true /\
  replace (txt ".stl") (txt ".eMesh") (txt "wing.STL") = txt "wing.STL".
Proof.
  destruct (emesh_name (txt "wing.stl")) as [H _].
  destruct (emesh_name (txt "wing.STL")) as [_ H'].
  split; [| split].
  - apply (H (txt "wing")); reflexivity.
  - reflexivity.
  - apply H'. intros a b E.
    assert (O : occurs (txt ".stl") (txt "wing.STL") = true).
    { apply occurs_iff; [discriminate |]. now exists a, b. }
    discriminate O.
Defined.

End ReplaceFacts.

(** ** The number of cores *)

Module CountFacts.
Import Str Format Regex Script Run StrFacts FormatFacts CaseTextFacts NumberFacts NameFacts.
Local Open Scope Z_scope.

Lemma lstrip_spaces (ws s : text) :
  forallb is_space ws = true -> lstrip (ws ++ s) = lstrip s.
Proof.
  induction ws as [| c ws IH]; intros H; [reflexivity |].
  cbn in H. apply andb_true_iff in H as [Hc Hw]. cbn [app lstrip].
  rewrite Hc. now apply IH.
Qed.

Lemma lstrip_all_spaces (ws : text) : forallb is_space ws = true -> lstrip ws = [].
Proof.
  intros H. rewrite <- (app_nil_r ws). now rewrite lstrip_spaces.
Qed.

(** Blanks around a text that neither starts nor ends with one are
    stripped, and nothing else. *)
Lemma strip_spaces (ws1 ws2 body : text) (c d : ascii) (mid : text) :
  forallb is_space ws1 = true -> forallb is_space ws2 = true ->
  body = c :: mid -> (exists pre, body = pre ++ [d]) ->
  is_space c = false -> is_space d = false ->
  strip (ws1 ++ body ++ ws2) = body.
Proof.
  intros H1 H2 Hb [pre Hp] Hc Hd. unfold strip. rewrite lstrip_spaces by exact H1.
  rewrite Hb at 1. cbn [app lstrip]. rewrite Hc.
  change (c :: mid ++ ws2) with ((c :: mid) ++ ws2). rewrite <- Hb.
  unfold rstrip. rewrite rev_app_distr, lstrip_spaces by now rewrite forallb_rev.
  rewrite Hp, rev_app_distr. cbn [rev app lstrip]. rewrite Hd.
  change (d :: rev pre) with (rev [d] ++ rev pre).
  now rewrite <- rev_app_distr, rev_involutive.
Qed.

Lemma strip_blank (ws : text) : forallb is_space ws = true -> strip ws = [].
Proof.
  intros H. unfold strip. now rewrite (lstrip_all_spaces _ H).
Qed.

Lemma int_digits_plain (s : text) (acc : Z) (flag : bool) :
  forallb is_digit s = true -> s <> [] \/ flag = true ->
  int_digits acc flag s = digits_value acc s.
Proof.
  revert acc flag. induction s as [| c s IH]; intros acc flag H N.
  - destruct N as [N | ->]; [congruence | reflexivity].
  - cbn in H. apply andb_true_iff in H as [Hc Hs].
    cbn [int_digits digits_value]. rewrite Hc. apply IH; [exact Hs | now right].
Qed.

Lemma parse_decimal (n : Z) : 0 <= n -> int_digits 0 false (decimal n) = Some n.
Proof.
  intros Hn. rewrite int_digits_plain.
  - now apply decimal_value.
  - apply decimal_digits.
  - left. apply decimal_nonempty.
Qed.

Lemma str_of_int_cases (n : Z) :
  (0 <= n /\ str_of_int n = decimal n) \/
  (n < 0 /\ str_of_int n = "-"%char :: decimal (- n)).
Proof.
  destruct n as [| p | p]; [left | left | right]; (split; [lia | reflexivity]).
Qed.

Lemma parse_str_of_int (n : Z) : parse_int (str_of_int n) = Some n.
Proof.
  destruct (str_of_int_cases n) as [[Hn ->] | [Hn ->]].
  - unfold parse_int. pose proof (decimal_digits n) as D.
    pose proof (decimal_nonempty n) as N.
    destruct (decimal n) as [| c s] eqn:E; [congruence |].
    cbn in D. apply andb_true_iff in D as [Hc _].
    rewrite (digit_not_minus _ Hc).
    assert (P : Ascii.eqb c "+" = false).
    { destruct (Ascii.eqb c "+") eqn:Q; [| reflexivity].
      apply Ascii.eqb_eq in Q. subst c. discriminate Hc. }
    rewrite P, <- E. now apply parse_decimal.
  - unfold parse_int. change (Ascii.eqb "-" "-") with true. cbv iota.
    rewrite parse_decimal by lia. cbn. f_equal. lia.
Qed.

Lemma str_of_int_ends (n : Z) :
  exists c mid d pre,
    str_of_int n = c :: mid /\ str_of_int n = pre ++ [d] /\
    is_space c = false /\ is_space d = false.
Proof.
  pose proof (str_of_int_num_chars n) as H.
  assert (N : str_of_int n <> []).
  { destruct (str_of_int_cases n) as [[_ ->] | [_ ->]];
      [apply decimal_nonempty | discriminate]. }
  destruct (str_of_int n) as [| c mid] eqn:E; [congruence |].
  destruct (exists_last (l := c :: mid)) as (pre & d & Hp); [discriminate |].
  exists c, mid, d, pre. split; [reflexivity |]. split; [exact Hp |].
  rewrite forallb_forall in H. split.
  - apply num_char_plain, H. now left.
  - apply num_char_plain, H. rewrite Hp. apply in_or_app. right. now left.
Qed.

(** X22. The number of cores is the number typed: the decimal text of
    any integer, with blanks before or behind it, is read as that
    integer, and a line of blanks only, or an empty one, gives 4. *)
Theorem count_of_typed (n : Z) (ws1 ws2 : text) :
  forallb is_space ws1 = true -> forallb is_space ws2 = true ->
  count_of (ws1 ++ str_of_int n ++ ws2) = Some n /\
  count_of (ws1 ++ ws2) = Some 4.
Proof.
  intros H1 H2. split.
  - destruct (str_of_int_ends n) as (c & mid & d & pre & E1 & E2 & Hc & Hd).
    unfold count_of.
    rewrite (strip_spaces ws1 ws2 (str_of_int n) c d mid H1 H2 E1
               (ex_intro _ pre E2) Hc Hd).
    rewrite E1 at 1. rewrite <- E1. apply parse_str_of_int.
  - unfold count_of. rewrite strip_blank; [reflexivity |].
    rewrite forallb_app. now rewrite H1, H2.
Qed.

Lemma count_of_typed_witness :
  count_of (txt " 12 ") = Some 12 /\ count_of (txt "  ") = Some 4.
Proof.
  apply (count_of_typed 12 (txt " ") (txt " ")); reflexivity.
Defined.

End CountFacts.

(** ** The order of the patterns *)

Module KeyFacts.
Import Str Format Regex Geometry BlockMeshDict StrFacts RegexFacts BlockMeshDictFacts.

(** Two keys that match one line are one key. *)
Lemma keys_exclusive (k1 k2 line : text) :
  key_ok k1 = true -> key_ok k2 = true ->
  rmatch (key_pattern k1) line <> None ->
  rmatch (key_pattern k2) line <> None ->
  k2 = k1.
Proof.
  intros H1 H2 M1 M2.
  destruct (rmatch (key_pattern k1) line) as [[rest mk] |] eqn:E1; [| congruence].
  destruct (rmatch (key_pattern k2) line) as [res |] eqn:E2; [| congruence].
  destruct (key_match_inv _ _ _ _ E1) as (lead & sp & body & -> & Hl & Hs & Hn & _).
  exact (other_key k1 k2 lead sp _ res H1 H2 Hl Hs Hn E2).
Qed.

Lemma matching_key_found (kvs : list (text * Q)) (line key : text) (v : Q) :
  forallb key_ok (map fst kvs) = true -> NoDup (map fst kvs) ->
  In (key, v) kvs -> rmatch (key_pattern key) line <> None ->
  matching_key kvs line = Some (key, v).
Proof.
  intros Hok Hnd Hin Hm.
  assert (Hkey : key_ok key = true).
  { rewrite forallb_forall in Hok. apply Hok. apply in_map_iff. now exists (key, v). }
  induction kvs as [| [k' v'] kvs IH]; [destruct Hin |].
  cbn [map fst forallb] in Hok. apply andb_true_iff in Hok as [Hk' Hok].
  cbn [map fst] in Hnd. apply NoDup_cons_iff in Hnd as [Hni Hnd].
  cbn [matching_key].
  destruct (rmatch (key_pattern k') line) eqn:E.
  - assert (k' = key).
    { apply (keys_exclusive key k' line Hkey Hk' Hm). congruence. }
    subst k'. destruct Hin as [[= ->] | Hin]; [reflexivity |].
    destruct Hni. apply in_map_iff. now exists (key, v).
  - destruct Hin as [[= -> ->] | Hin]; [congruence |]. now apply IH.
Qed.

(** X23. A line matches at most one of the nine patterns, so neither the
    order in which the loop tries them nor its [break] decides
    anything: with the patterns tried in any other order every line is
    rewritten in the same way. *)
Theorem pattern_order_irrelevant (dom : bounds) (dx dy dz : Q) (line : text) :
  (forall k1 k2,
      In k1 keys -> In k2 keys ->
      rmatch (key_pattern k1) line <> None ->
      rmatch (key_pattern k2) line <> None ->
      k1 = k2) /\
  (forall kvs,
      Permutation kvs (values dom dx dy dz) ->
      rewrite_line kvs line = rewrite_line (values dom dx dy dz) line).
Proof.
  split.
  - intros k1 k2 H1 H2 M1 M2.
    assert (K : forall k, In k keys -> key_ok k = true).
    { intros k Hk. cbn in Hk.
      repeat (destruct Hk as [<- | Hk]; [reflexivity |]). destruct Hk. }
    exact (keys_exclusive k2 k1 line (K _ H2) (K _ H1) M2 M1).
  - intros kvs P. rewrite !rewrite_line_matching.
    assert (Hok : forallb key_ok (map fst (values dom dx dy dz)) = true)
      by apply values_keys.
    assert (Hnd : NoDup (map fst (values dom dx dy dz))).
    { cbn. repeat constructor; cbn; intuition discriminate. }
    assert (Hok' : forallb key_ok (map fst kvs) = true).
    { rewrite forallb_forall in *. intros k Hk. apply Hok.
      eapply Permutation_in; [apply Permutation_map, P | exact Hk]. }
    assert (Hnd' : NoDup (map fst kvs)).
    { eapply Permutation_NoDup; [apply Permutation_map, Permutation_sym, P | exact Hnd]. }
    destruct (matching_key (values dom dx dy dz) line) as [[k v] |] eqn:E.
    + destruct (matching_key_matches _ _ _ _ E) as [Hin Hm].
      rewrite (matching_key_found kvs line k v Hok' Hnd'
                 (Permutation_in _ (Permutation_sym P) Hin) Hm).
      reflexivity.
    + destruct (matching_key kvs line) as [[k v] |] eqn:E'; [| reflexivity].
      destruct (matching_key_matches _ _ _ _ E') as [Hin Hm].
      rewrite (matching_key_found _ line k v Hok Hnd (Permutation_in _ P Hin) Hm) in E.
      discriminate E.
Qed.

Lemma pattern_order_irrelevant_witness :
  rewrite_line (rev (values unit_cube 1 2 3)) (txt "  dx 7;")
  = rewrite_line (values unit_cube 1 2 3) (txt "  dx 7;").
Proof.
  destruct (pattern_order_irrelevant unit_cube 1 2 3 (txt "  dx 7;")) as [_ H].
  apply H. apply Permutation_sym, Permutation_rev.
Defined.

End KeyFacts.
